(** * Message synchronisation engine and push worker of the WhatsApp-style
      chat front-end: a shallow embedding and its verified properties.

    The engine is the [MessagesProvider] React component (the evolved
    variant, with a per-contact snapshot query and [setContactId]); the push
    worker is the service worker's [push] listener.  React state is a record,
    every [setX] call is a command, and an operation is the list of commands
    it issues, executed in order.  The [await] of the snapshot query splits
    [fetchMessages] into the part that runs before the query is issued and
    the continuation that runs on its response. *)

From Stdlib Require Import ZArith String Ascii List Lia Bool.
From stdpp Require Import base list strings.
Import ListNotations.
Local Open Scope string_scope.
Local Open Scope Z_scope.
Local Open Scope list_scope.

(** ** JavaScript helpers *)

Module JS.

(** Truthiness of a [string | null] value: [null] and the empty string are
    falsy. *)
Definition truthy (s : option string) : bool :=
  match s with
  | Some (String _ _) => true
  | _ => false
  end.

(** [a || b] on numbers: [undefined] and [0] are falsy. *)
Definition or_number (a : option Z) (b : Z) : Z :=
  match a with
  | Some n => if Z.eqb n 0 then b else n
  | None => b
  end.

(** [a || b] on strings: [undefined] and the empty string are falsy. *)
Definition or_string (a : option string) (b : string) : string :=
  match a with
  | Some (String c r) => String c r
  | _ => b
  end.

(** [\d] without the unicode flag: the ten ASCII digits. *)
Definition is_digit (c : ascii) : bool :=
  let n := nat_of_ascii c in
  (Nat.leb 48 n && Nat.leb n 57)%bool.

Fixpoint all_digits (s : string) : bool :=
  match s with
  | EmptyString => true
  | String c r => is_digit c && all_digits r
  end.

(** [/^\d+$/.test(s)]: one or more digits and nothing else. *)
Definition test_digits (s : string) : bool :=
  match s with
  | EmptyString => false
  | String _ _ => all_digits s
  end.

(** [Array.prototype.findIndex]; [None] stands for the result [-1]. *)
Fixpoint findIndex {A : Type} (p : A -> bool) (l : list A) : option nat :=
  match l with
  | [] => None
  | x :: r => if p x then Some O else option_map S (findIndex p r)
  end.

(** [Array.prototype.some]. *)
Definition some {A : Type} (p : A -> bool) (l : list A) : bool :=
  List.existsb p l.

End JS.

(** ** Data model *)

Module Msg.

Inductive MessageType := type_text | type_image | type_audio | type_video.

Inductive Status := sending | sent.

(** Modelled from the spec: the declaration of [WhatsAppMessage]
    (imported from [../types]) is not among the sources.  The fields are the
    ones [addOptimisticMessage] fills in, with the nullability its [?? null]
    defaults show; the spec's data model lists the same attributes.  [status]
    is client-derived and absent ([None]) on rows that come from the store. *)
Record WhatsAppMessage := {
  id : Z;
  type : MessageType;
  from : option string;
  to : option string;
  text : option string;
  media_url : option string;
  is_reply : option string;
  reply_to_mid : option string;
  mid : option string;
  created_at : string;
  status : option Status
}.

(** [Partial<WhatsAppMessage>]: every field may be missing.  [None] stands
    for [undefined] and, on the nullable fields, for [null] as well: the code
    reads them through [??] and [||], which treat both alike. *)
Record Partial := {
  p_id : option Z;
  p_type : option MessageType;
  p_from : option string;
  p_to : option string;
  p_text : option string;
  p_media_url : option string;
  p_is_reply : option string;
  p_reply_to_mid : option string;
  p_mid : option string;
  p_created_at : option string
}.

(** [{ ...m, status: 'sent' }] *)
Definition with_sent (m : WhatsAppMessage) : WhatsAppMessage :=
  {| id := id m; type := type m; from := from m; to := to m; text := text m;
     media_url := media_url m; is_reply := is_reply m;
     reply_to_mid := reply_to_mid m; mid := mid m;
     created_at := created_at m; status := Some sent |}.

(** The callback of [some] and [findIndex]:
    [m.id === newMsg.id || (m.mid && newMsg.mid && m.mid === newMsg.mid)]. *)
Definition same_message (newMsg m : WhatsAppMessage) : bool :=
  Z.eqb (id m) (id newMsg)
  || (JS.truthy (mid m) && JS.truthy (mid newMsg)
      && bool_decide (mid m = mid newMsg)).

(** [newMsg.from && /^\d+$/.test(newMsg.from) ? newMsg.from : newMsg.to] *)
Definition msgContact (newMsg : WhatsAppMessage) : option string :=
  match from newMsg with
  | Some f => if JS.test_digits f then Some f else to newMsg
  | None => to newMsg
  end.

End Msg.

Import Msg.

(** ** The synchronisation engine *)

Module Engine.

(** What a rejected or failed query throws: an [Error] instance with its
    message, or any other value. *)
Inductive Thrown :=
| ErrorInstance (message : string)
| OtherValue.

(** The outcome of the awaited store query: it resolves to
    [{ data, error }] or the promise rejects. *)
Inductive QueryResult :=
| Resolved (data : option (list WhatsAppMessage)) (fetchError : option Thrown)
| Rejected (err : Thrown).

(** A realtime change event.  INSERT and UPDATE carry the new row; DELETE
    carries the old row, of which the handler reads [id] only. *)
Inductive Payload :=
| INSERT (new : WhatsAppMessage)
| UPDATE (new : WhatsAppMessage)
| DELETE (old : Partial).

(** The provider's state: the three [useState] cells and [contactIdRef]. *)
Record State := {
  messages : list WhatsAppMessage;
  loading : bool;
  error : option string;
  contactIdRef : option string
}.

(** [useState([])], [useState(false)], [useState(null)], [useRef(null)]. *)
Definition initial : State :=
  {| messages := []; loading := false; error := None; contactIdRef := None |}.

(** The effects an operation performs, in program order. *)
Inductive Cmd :=
| setMessages (l : list WhatsAppMessage)
| updMessages (f : list WhatsAppMessage -> list WhatsAppMessage)
| setLoading (b : bool)
| setError (e : option string)
| setContactIdRef (c : option string)
| query (c : string).

Definition exec1 (s : State) (c : Cmd) : State :=
  match c with
  | setMessages l =>
      {| messages := l; loading := loading s; error := error s;
         contactIdRef := contactIdRef s |}
  | updMessages f =>
      {| messages := f (messages s); loading := loading s; error := error s;
         contactIdRef := contactIdRef s |}
  | setLoading b =>
      {| messages := messages s; loading := b; error := error s;
         contactIdRef := contactIdRef s |}
  | setError e =>
      {| messages := messages s; loading := loading s; error := e;
         contactIdRef := contactIdRef s |}
  | setContactIdRef c =>
      {| messages := messages s; loading := loading s; error := error s;
         contactIdRef := c |}
  | query _ => s
  end.

Definition exec (s : State) (cs : list Cmd) : State := fold_left exec1 cs s.

Definition sets_loading_true (c : Cmd) : bool :=
  match c with
  | setLoading true => true
  | _ => false
  end.

(** [const id = forContactId !== undefined ? forContactId : contactIdRef.current] *)
Definition fetch_id (forContactId : option (option string)) (s : State)
  : option string :=
  match forContactId with
  | Some given => given
  | None => contactIdRef s
  end.

(** The conversation the snapshot query is issued for; [None] when
    [!id] holds and [fetchMessages] returns without a query. *)
Definition fetch_target (forContactId : option (option string)) (s : State)
  : option string :=
  let id := fetch_id forContactId s in
  if JS.truthy id then id else None.

(** [fetchMessages] up to and including the call that is awaited. *)
Definition fetchMessages_begin (forContactId : option (option string))
  (s : State) : list Cmd :=
  match fetch_target forContactId s with
  | None => [setMessages []; setLoading false]
  | Some id => [setError None; query id]
  end.

(** [err instanceof Error ? err.message : 'Unknown error'] *)
Definition error_text (err : Thrown) : string :=
  match err with
  | ErrorInstance message => message
  | OtherValue => "Unknown error"
  end.

(** What the [catch] block receives, if anything: the [fetchError] of the
    response, which the [try] throws, or the rejection of the promise. *)
Definition failure (r : QueryResult) : option Thrown :=
  match r with
  | Resolved _ (Some err) | Rejected err => Some err
  | Resolved _ None => None
  end.

(** [fetchMessages] from the response of the query on: the rest of the
    [try], the [catch] and the [finally]. *)
Definition fetchMessages_resume (r : QueryResult) : list Cmd :=
  match r with
  | Resolved data None =>
      [setMessages (default [] data); setLoading false]
  | Resolved _ (Some err) | Rejected err =>
      [setError (Some (error_text err)); setLoading false]
  end.

(** A whole call of [fetchMessages] with nothing interleaved at the
    [await]; [respond] is the store's answer to the query. *)
Definition fetchMessages (forContactId : option (option string))
  (respond : string -> QueryResult) (s : State) : list Cmd :=
  match fetch_target forContactId s with
  | None => fetchMessages_begin forContactId s
  | Some id =>
      fetchMessages_begin forContactId s ++ fetchMessages_resume (respond id)
  end.

(** [setContactId], up to the [await] inside the [fetchMessages(id)] it
    calls. *)
Definition setContactId (id : option string) (s : State) : list Cmd :=
  [setContactIdRef id; setMessages []; setLoading true]
  ++ fetchMessages_begin (Some id) s.

(** The record [addOptimisticMessage] synthesises; [now] is [Date.now()] and
    [nowIso] is [new Date().toISOString()]. *)
Definition newMsg_of (message : Partial) (now : Z) (nowIso : string)
  : WhatsAppMessage :=
  {| id := JS.or_number (p_id message) now;
     type := default type_text (p_type message);
     from := p_from message;
     to := p_to message;
     text := p_text message;
     media_url := p_media_url message;
     is_reply := p_is_reply message;
     reply_to_mid := p_reply_to_mid message;
     mid := p_mid message;
     created_at := JS.or_string (p_created_at message) nowIso;
     status := Some sending |}.

(** The updater passed to [setMessages] by [addOptimisticMessage]. *)
Definition add_if_new (newMsg : WhatsAppMessage) (prev : list WhatsAppMessage)
  : list WhatsAppMessage :=
  if JS.some (same_message newMsg) prev then prev else prev ++ [newMsg].

(** [addOptimisticMessage]: the returned record and the effects. *)
Definition addOptimisticMessage (message : Partial) (now : Z) (nowIso : string)
  : WhatsAppMessage * list Cmd :=
  let newMsg := newMsg_of message now nowIso in
  (newMsg, [updMessages (add_if_new newMsg)]).

(** The updater of the INSERT branch. *)
Definition insert_or_replace (newMsg : WhatsAppMessage)
  (prev : list WhatsAppMessage) : list WhatsAppMessage :=
  match JS.findIndex (same_message newMsg) prev with
  | Some existingIndex => <[existingIndex := with_sent newMsg]> prev
  | None => prev ++ [with_sent newMsg]
  end.

(** The updater of the UPDATE branch. *)
Definition replace_by_id (updatedMsg : WhatsAppMessage)
  (prev : list WhatsAppMessage) : list WhatsAppMessage :=
  List.map (fun m => if Z.eqb (id m) (id updatedMsg) then with_sent updatedMsg else m)
    prev.

(** The updater of the DELETE branch: [m.id !== deletedId], where
    [deletedId] is [undefined] when the old row has no [id]. *)
Definition remove_by_id (deletedId : option Z) (prev : list WhatsAppMessage)
  : list WhatsAppMessage :=
  List.filter (fun m => negb (bool_decide (Some (id m) = deletedId))) prev.

(** The [postgres_changes] callback of the shared channel. *)
Definition onChange (payload : Payload) (s : State) : list Cmd :=
  let currentId := contactIdRef s in
  if negb (JS.truthy currentId) then []
  else
    match payload with
    | INSERT newMsg =>
        if negb (bool_decide (msgContact newMsg = currentId)) then []
        else [updMessages (insert_or_replace newMsg)]
    | UPDATE updatedMsg =>
        if negb (bool_decide (msgContact updatedMsg = currentId)) then []
        else [updMessages (replace_by_id updatedMsg)]
    | DELETE old =>
        [updMessages (remove_by_id (p_id old))]
    end.

(** Everything that can happen to a mounted provider. *)
Inductive Action :=
| Select (id : option string)
| Fetch
| Respond (r : QueryResult)
| Optimistic (message : Partial) (now : Z) (nowIso : string)
| Realtime (payload : Payload).

(** The commands of one action.  [Fetch] is a recovery trigger or [refetch]:
    [fetchMessagesRef.current()] without an argument.  [Respond] resumes a
    fetch that is waiting for its query. *)
Definition commands (a : Action) (s : State) : list Cmd :=
  match a with
  | Select id => setContactId id s
  | Fetch => fetchMessages_begin None s
  | Respond r => fetchMessages_resume r
  | Optimistic message now nowIso =>
      snd (addOptimisticMessage message now nowIso)
  | Realtime payload => onChange payload s
  end.

Definition step (s : State) (a : Action) : State := exec s (commands a s).

Definition run (s : State) (acts : list Action) : State := fold_left step acts s.

End Engine.

(** ** The push service worker *)

Module Push.

(** A parsed JSON document.  Numbers are kept as integers: the listener
    only tests them for truthiness. *)
#[local] Unset Elimination Schemes.
Inductive JSON :=
| JNull
| JBool (b : bool)
| JNumber (n : Z)
| JString (s : string)
| JArray (items : list JSON)
| JObject (fields : list (string * JSON)).
#[local] Set Elimination Schemes.

(** A JavaScript value read off a document: [None] is [undefined]. *)
Definition Value := option JSON.

(** [event.data]: [json] is the outcome of [event.data.json()], [None] when
    it throws because the payload is not JSON. *)
Record PushMessageData := { json : option JSON }.

(** [event.data] is [null] for a push without payload. *)
Record PushEvent := { data : option PushMessageData }.

Fixpoint lookup_field (k : string) (fields : list (string * JSON)) : Value :=
  match fields with
  | [] => None
  | (k', v) :: r => if String.eqb k k' then Some v else lookup_field k r
  end.

(** [v.k] for [k] one of [title], [body], [data]: a [TypeError] ([None]) on
    [null], the field on an object, [undefined] on every other value (their
    prototypes have no such property). *)
Definition get (v : JSON) (k : string) : option Value :=
  match v with
  | JNull => None
  | JObject fields => Some (lookup_field k fields)
  | _ => Some None
  end.

(** Truthiness of a value, for [data.data || {}]. *)
Definition truthy (v : Value) : bool :=
  match v with
  | None | Some JNull | Some (JBool false) | Some (JNumber 0)
  | Some (JString EmptyString) => false
  | _ => true
  end.

Record NotificationOptions := {
  body : Value;
  icon : string;
  badge : string;
  vibrate : list Z;
  opt_data : JSON;
  actions : list (string * string);
  tag : string;
  renotify : bool
}.

(** What the listener does: it calls [showNotification(title, options)], or
    an exception escapes it before the call. *)
Inductive Outcome :=
| Shown (title : Value) (options : NotificationOptions)
| Throws.

(** [let data = { title: 'New Message', body: 'You have a new message' }] *)
Definition defaults : JSON :=
  JObject [("title", JString "New Message");
           ("body", JString "You have a new message")].

(** [try { data = event.data.json(); } catch (e) { }]: reading [json] off a
    [null] [event.data] throws inside the [try] as well. *)
Definition parsed (event : PushEvent) : JSON :=
  match data event with
  | Some d => default defaults (json d)
  | None => defaults
  end.

(** The [push] listener. *)
Definition onPush (event : PushEvent) : Outcome :=
  let data := parsed event in
  match get data "body" with
  | None => Throws
  | Some data_body =>
      match get data "data" with
      | None => Throws
      | Some data_data =>
          let options :=
            {| body := data_body;
               icon := "/vite.svg";
               badge := "/vite.svg";
               vibrate := [200; 100; 200];
               opt_data := if truthy data_data then default (JObject []) data_data
                           else JObject [];
               actions := [("open", "Open")];
               tag := "portal-message";
               renotify := true |} in
          match get data "title" with
          | None => Throws
          | Some data_title => Shown data_title options
          end
      end
  end.

End Push.

(** ** Properties the specification speaks of *)

Module Spec.

Import Engine.

(** The external message identifier of an entry when it has a non-empty
    one. *)
Definition mid_key (m : WhatsAppMessage) : option string :=
  if JS.truthy (mid m) then mid m else None.

(** No two entries share an identifier, no two entries share a non-empty
    external message identifier. *)
Definition duplicate_free (l : list WhatsAppMessage) : Prop :=
  NoDup (id <$> l) /\ NoDup (omap mid_key l).

(** The entries of the list that the dedup test takes for [e]. *)
Definition matching (e : WhatsAppMessage) (l : list WhatsAppMessage)
  : list WhatsAppMessage :=
  List.filter (same_message e) l.

(** [e] is taken for at most one entry of the list. *)
Definition unambiguous (e : WhatsAppMessage) (l : list WhatsAppMessage)
  : Prop :=
  (length (matching e l) <= 1)%nat.

(** The guards of [onChange] let the event through to an updater. *)
Definition accepted (s : State) (payload : Payload) : bool :=
  JS.truthy (contactIdRef s)
  && match payload with
     | INSERT m | UPDATE m => bool_decide (msgContact m = contactIdRef s)
     | DELETE _ => true
     end.

(** The owning conversation of an event in the spec's words: the sender
    field when it is purely numeric, the recipient field otherwise; for a
    DELETE the fields are those of the old row, when it carries them. *)
Definition spec_owner (payload : Payload) : option string :=
  match payload with
  | INSERT m | UPDATE m => msgContact m
  | DELETE old =>
      match p_from old with
      | Some f => if JS.test_digits f then Some f else p_to old
      | None => p_to old
      end
  end.

(** A pure numeric identifier: one or more characters, each a decimal
    digit. *)
Definition numeric (f : string) : Prop :=
  f <> ""
  /\ Forall (fun c => (48 <= nat_of_ascii c <= 57)%nat) (list_ascii_of_string f).

(** The owning conversation of a message in the spec's words: the sender
    when the sender is a pure numeric identifier, the recipient otherwise. *)
Inductive owner_of (m : WhatsAppMessage) : option string -> Prop :=
| owner_sender (f : string) :
    from m = Some f -> numeric f -> owner_of m (Some f)
| owner_recipient :
    (forall f, from m = Some f -> ~ numeric f) -> owner_of m (to m).

(** An action that keeps the list duplicate-free: a snapshot is itself
    duplicate-free, and an INSERT or UPDATE that passes the guards is taken
    for at most one entry of the list it is applied to. *)
Definition admissible (s : State) (a : Action) : Prop :=
  match a with
  | Respond (Resolved (Some data) None) => duplicate_free data
  | Realtime payload =>
      match payload with
      | INSERT e | UPDATE e =>
          accepted s payload = true -> unambiguous e (messages s)
      | DELETE _ => True
      end
  | _ => True
  end.

(** Every action of the run is admissible in the state it is applied to. *)
Fixpoint admissible_run (s : State) (acts : list Action) : Prop :=
  match acts with
  | [] => True
  | a :: rest => admissible s a /\ admissible_run (step s a) rest
  end.

(** Every snapshot the run receives is duplicate-free. *)
Definition snapshots_duplicate_free (acts : list Action) : Prop :=
  forall data, In (Respond (Resolved (Some data) None)) acts ->
               duplicate_free data.

End Spec.

(** ** Sample data for the worked examples *)

Module Sample.

Import Engine.

(** A stored text row, as a snapshot or a change event delivers it. *)
Definition row (i : Z) (sender recipient : string) (m : option string)
  : WhatsAppMessage :=
  {| id := i; type := type_text; from := Some sender; to := Some recipient;
     text := Some "hi"; media_url := None; is_reply := None;
     reply_to_mid := None; mid := m;
     created_at := "2024-05-01T10:00:00.000Z"; status := None |}.

(** A partial message as the composer passes it to
    [addOptimisticMessage]. *)
Definition draft (i : option Z) (m : option string) : Partial :=
  {| p_id := i; p_type := Some type_text; p_from := Some "bot";
     p_to := Some "555"; p_text := Some "hi"; p_media_url := None;
     p_is_reply := None; p_reply_to_mid := None; p_mid := m;
     p_created_at := None |}.

(** The old row of a DELETE event that carries the primary key only. *)
Definition key_only (i : Z) : Partial :=
  {| p_id := Some i; p_type := None; p_from := None; p_to := None;
     p_text := None; p_media_url := None; p_is_reply := None;
     p_reply_to_mid := None; p_mid := None; p_created_at := None |}.

(** The old row of a DELETE event on a table that replicates full rows. *)
Definition old_row (i : Z) (sender recipient : string) : Partial :=
  {| p_id := Some i; p_type := Some type_text; p_from := Some sender;
     p_to := Some recipient; p_text := Some "hi"; p_media_url := None;
     p_is_reply := None; p_reply_to_mid := None; p_mid := None;
     p_created_at := Some "2024-05-01T10:00:00.000Z" |}.

(** Conversation 555 is open and shows [l]. *)
Definition chat555 (l : list WhatsAppMessage) : State :=
  {| messages := l; loading := false; error := None;
     contactIdRef := Some "555" |}.

Definition now_iso : string := "2024-05-01T10:00:05.000Z".

(** Conversation 555 is selected and its snapshot shows two rows; then an
    INSERT arrives that carries the external identifier of the first row and
    the identifier of the second. *)
Definition insert_run : list Action :=
  [Select (Some "555");
   Respond (Resolved (Some [row 1 "555" "bot" (Some "wamid.1");
                            row 2 "555" "bot" (Some "wamid.2")]) None);
   Realtime (INSERT (row 2 "555" "bot" (Some "wamid.1")))].

(** Conversation 555 is selected and empty; a message is submitted with its
    external identifier, the stored row arrives without one, then an UPDATE
    sets it on the row. *)
Definition update_run : list Action :=
  [Select (Some "555");
   Respond (Resolved (Some []) None);
   Optimistic (draft None (Some "wamid.9")) 1714557605000 now_iso;
   Realtime (INSERT (row 9 "bot" "555" None));
   Realtime (UPDATE (row 9 "bot" "555" (Some "wamid.9")))].

End Sample.

(** ** The snapshot query and the first provider variant *)

Module Query.

(** The filter of the snapshot query, [.or(`from.eq.${id},to.eq.${id}`)]:
    the rows whose sender or whose recipient is [id]. *)
Definition selects (id : string) (m : WhatsAppMessage) : bool :=
  bool_decide (from m = Some id) || bool_decide (to m = Some id).

End Query.

Module Naive.

Import Engine.

(** The [postgres_changes] callback of the first provider variant: the
    same three updaters, with no conversation to compare against. *)
Definition onChange (payload : Payload) : list Cmd :=
  match payload with
  | INSERT newMsg => [updMessages (insert_or_replace newMsg)]
  | UPDATE updatedMsg => [updMessages (replace_by_id updatedMsg)]
  | DELETE old => [updMessages (remove_by_id (p_id old))]
  end.

End Naive.

(** ** Classes of actions *)

Module Kind.

Import Engine.

(** The actions that write the loading flag: a selection and the
    continuation of a fetch. *)
Definition settles (a : Action) : bool :=
  match a with
  | Select _ | Respond _ => true
  | _ => false
  end.

Definition is_select (a : Action) : bool :=
  match a with
  | Select _ => true
  | _ => false
  end.

(** The continuation of a fetch whose query failed. *)
Definition fails (a : Action) : bool :=
  match a with
  | Respond r =>
      match failure r with
      | Some _ => true
      | None => false
      end
  | _ => false
  end.

End Kind.

(** ** The wiring of the provider's effect *)

Module Page.

Import Engine.

(** What the effect of [MessagesProvider] leaves behind.  [sharedChannel]
    and [fetchRef] are the two module-level variables; each holds the
    provider instance whose references its closure captured.  [listening]
    are the instances whose visibility and online listeners and poll timer
    are registered. *)
Record Page := {
  sharedChannel : option nat;
  fetchRef : option nat;
  listening : list nat
}.

(** [let sharedChannel = null; let fetchRef = null;] *)
Definition initial : Page :=
  {| sharedChannel := None; fetchRef := None; listening := [] |}.

Inductive Event :=
| Mount (i : nat)
| Unmount (i : nat)
| Status (status : string)
| Change (payload : Payload)
| VisibilityChange (visibilityState : string)
| Online
| Poll (i : nat).

(** The effect body creates and subscribes the channel. *)
Definition creates_channel (p : Page) (e : Event) : bool :=
  match e, sharedChannel p with
  | Mount _, None => true
  | _, _ => false
  end.

(** The effect on mount, its cleanup on unmount; the other events change
    no wiring. *)
Definition step (p : Page) (e : Event) : Page :=
  match e with
  | Mount i =>
      {| sharedChannel := match sharedChannel p with
                          | Some owner => Some owner
                          | None => Some i
                          end;
         fetchRef := Some i;
         listening := listening p ++ [i] |}
  | Unmount i =>
      {| sharedChannel := sharedChannel p;
         fetchRef := fetchRef p;
         listening := List.filter (fun j => negb (Nat.eqb j i)) (listening p) |}
  | _ => p
  end.

(** The provider actions an event sets off, each with the instance whose
    references it works on. *)
Definition calls (p : Page) (e : Event) : list (nat * Action) :=
  match e with
  | Mount _ | Unmount _ => []
  | Status status =>
      match sharedChannel p, fetchRef p with
      | Some _, Some i => if String.eqb status "SUBSCRIBED" then [(i, Fetch)] else []
      | _, _ => []
      end
  | Change payload =>
      match sharedChannel p with
      | Some owner => [(owner, Realtime payload)]
      | None => []
      end
  | VisibilityChange visibilityState =>
      if String.eqb visibilityState "visible"
      then List.map (fun i => (i, Fetch)) (listening p)
      else []
  | Online => List.map (fun i => (i, Fetch)) (listening p)
  | Poll i => if List.existsb (Nat.eqb i) (listening p) then [(i, Fetch)] else []
  end.

Definition run (p : Page) (events : list Event) : Page :=
  fold_left step events p.

(** How many channels the events create, starting from [p]. *)
Fixpoint channels_created (p : Page) (events : list Event) : nat :=
  match events with
  | [] => O
  | e :: rest =>
      ((if creates_channel p e then 1 else 0) + channels_created (step p e) rest)%nat
  end.

(** The instance of the first mount among the events, of the last one. *)
Fixpoint first_mount (events : list Event) : option nat :=
  match events with
  | [] => None
  | Mount i :: _ => Some i
  | _ :: rest => first_mount rest
  end.

Definition last_mount (events : list Event) : option nat :=
  first_mount (rev events).

(** Instance [i] mounted during the events and has not unmounted since. *)
Definition mounted (events : list Event) (i : nat) : Prop :=
  exists pre post, events = pre ++ Mount i :: post /\ ~ In (Unmount i) post.

End Page.

(** ** The notification click listener *)

Module Click.

(** A window client as the listener reads it: its URL, and whether it has
    a [focus] method (['focus' in client]). *)
Record Client := { url : string; focus_in_client : bool }.

(** [s.includes(sub)] *)
Fixpoint includes (s sub : string) : bool :=
  if String.prefix sub s then true
  else match s with
       | EmptyString => false
       | String _ rest => includes rest sub
       end.

Inductive Effect :=
| close
| focus (client : Client)
| openWindow (path : string).

(** The body of the [then] callback: the [for] loop and the fallback. *)
Fixpoint choose (origin : string) (clientList : list Client) : Effect :=
  match clientList with
  | [] => openWindow "/"
  | client :: rest =>
      if includes (url client) origin && focus_in_client client
      then focus client
      else choose origin rest
  end.

(** The [notificationclick] listener, given [self.location.origin] and the
    clients [matchAll] resolves to. *)
Definition onNotificationClick (origin : string) (clientList : list Client)
  : list Effect :=
  [close; choose origin clientList].

(** The client is one the loop stops at: its URL contains the origin and
    it can be focused. *)
Definition eligible (origin : string) (client : Client) : Prop :=
  (exists before after, url client = before ++ origin ++ after)%string
  /\ focus_in_client client = true.

End Click.

(** ** Push subscription set-up *)

Module PushSetup.

(** ['='.repeat(n)] *)
Fixpoint repeat_eq (n : nat) : string :=
  match n with
  | O => EmptyString
  | S k => String "=" (repeat_eq k)
  end.

(** ['='.repeat((4 - (base64String.length % 4)) % 4)] *)
Definition padding (base64String : string) : string :=
  repeat_eq ((4 - String.length base64String mod 4) mod 4).

(** [s.replace(/a/g, b)] for a pattern that is the single character [a]. *)
Fixpoint replace_all (a b : ascii) (s : string) : string :=
  match s with
  | EmptyString => EmptyString
  | String c rest =>
      String (if Ascii.eqb c a then b else c) (replace_all a b rest)
  end.

(** [(base64String + padding).replace(/-/g, '+').replace(/_/g, '/')] *)
Definition base64 (base64String : string) : string :=
  replace_all "_" "/"
    (replace_all "-" "+" (base64String ++ padding base64String)%string).

(** [urlBase64ToUint8Array]; [atob] is the browser's decoder, [None] when it
    throws.  Each element of the [Uint8Array] is the character code, stored
    modulo 256. *)
Definition urlBase64ToUint8Array (atob : string -> option string)
  (base64String : string) : option (list Z) :=
  match atob (base64 base64String) with
  | None => None
  | Some rawData =>
      Some (List.map (fun c => Z.of_nat (nat_of_ascii c) mod 256)
              (list_ascii_of_string rawData))
  end.

(** The characters of the URL-safe and of the standard base64 alphabet. *)
Definition is_alnum (c : ascii) : bool :=
  let n := nat_of_ascii c in
  (Nat.leb 48 n && Nat.leb n 57) || (Nat.leb 65 n && Nat.leb n 90)
  || (Nat.leb 97 n && Nat.leb n 122).

Definition is_base64url_char (c : ascii) : bool :=
  is_alnum c || Ascii.eqb c "-" || Ascii.eqb c "_".

Definition is_base64_char (c : ascii) : bool :=
  is_alnum c || Ascii.eqb c "+" || Ascii.eqb c "/".

(** What [initPushNotifications] does to the outside, in program order. *)
Inductive Call :=
| console_log (text : string)
| console_warn (text : string)
| console_error (text : string)
| register (scriptURL : string)
| requestPermission
| fetch_get (url : string)
| subscribe (applicationServerKey : list Z)
| fetch_post (url : string) (body : string).

(** What the browser and the server answer.  [registers]: the promise of
    [register] resolves.  [permission]: the value [requestPermission]
    resolves to.  [subscribes]: the serialised subscription, [None] when
    [pushManager.subscribe] rejects.  [posts]: the POST resolves.

    Modelled from the spec: the body of [/api/push/vapid-key], which a
    server outside the sources produces, is [{ publicKey }] with a string
    key.  [vapid] is [None] when the request or the parsing of its body
    fails, [Some None] when the body has no key, [Some (Some k)] for the
    key [k]. *)
Record Browser := {
  serviceWorker_in_navigator : bool;
  PushManager_in_window : bool;
  registers : bool;
  permission : string;
  vapid : option (option string);
  atob : string -> option string;
  subscribes : list Z -> option string;
  posts : bool
}.

Definition setup_error : Call := console_error "[Push] Setup error:".

(** [initPushNotifications]: every awaited call that fails lands in the
    [catch], which logs the error. *)
Definition initPushNotifications (b : Browser) : list Call :=
  if negb (serviceWorker_in_navigator b) || negb (PushManager_in_window b)
  then [console_log "[Push] Not supported in this browser"]
  else
    register "/sw-push.js" ::
    if negb (registers b) then [setup_error]
    else
      console_log "[Push] Service worker registered" ::
      requestPermission ::
      if negb (String.eqb (permission b) "granted")
      then [console_log "[Push] Permission denied"]
      else
        fetch_get "/api/push/vapid-key" ::
        match vapid b with
        | None => [setup_error]
        | Some publicKey =>
            if negb (JS.truthy publicKey)
            then [console_warn "[Push] No VAPID public key from server"]
            else
              match urlBase64ToUint8Array (atob b) (default "" publicKey) with
              | None => [setup_error]
              | Some key =>
                  subscribe key ::
                  match subscribes b key with
                  | None => [setup_error]
                  | Some body =>
                      fetch_post "/api/push/subscribe" body ::
                      if posts b
                      then [console_log "[Push] Subscribed successfully"]
                      else [setup_error]
                  end
              end
        end.

Definition is_console (c : Call) : bool :=
  match c with
  | console_log _ | console_warn _ | console_error _ => true
  | _ => false
  end.

(** The calls that leave the page: everything but the console. *)
Definition outward (calls : list Call) : list Call :=
  List.filter (fun c => negb (is_console c)) calls.

End PushSetup.

(** ** The chat header and the message bubble *)

Module Header.

(** [useState(isEnabled)] with the default [isEnabled = true] of the
    destructured props. *)
Definition initial_enabled (isEnabled : option bool) : bool :=
  default true isEnabled.

(** [handleToggle]: the new state, and the argument [onToggle] is called
    with when the prop is given. *)
Definition handleToggle (onToggle_given : bool) (enabled : bool)
  : bool * option bool :=
  let newState := negb enabled in
  (newState, if onToggle_given then Some newState else None).

(** [n] clicks on the switch, each handled after the re-render the click
    before it caused: the state and what [onToggle] was told, oldest
    first. *)
Fixpoint clicks (onToggle_given : bool) (n : nat) (enabled : bool)
  : bool * list bool :=
  match n with
  | O => (enabled, [])
  | S k =>
      let (newState, told) := handleToggle onToggle_given enabled in
      let (final, rest) := clicks onToggle_given k newState in
      (final, option_list told ++ rest)
  end.

End Header.

Module Bubble.

Inductive Tick := CheckCheck | Clock.

(** Which parts of the bubble are rendered. *)
Record Blocks := {
  reply_indicator : bool;
  image : bool;
  audio : bool;
  video : bool;
  text_paragraph : bool;
  tick : option Tick
}.

Definition type_eqb (a b : MessageType) : bool :=
  match a, b with
  | type_text, type_text | type_image, type_image
  | type_audio, type_audio | type_video, type_video => true
  | _, _ => false
  end.

(** The conditions of the JSX blocks of [MessageBubble]; [isOwn] is the
    result of [isOutgoing(message)], a function of [../types] that is not
    among the sources. *)
Definition blocks (isOwn : bool) (message : WhatsAppMessage) : Blocks :=
  {| reply_indicator :=
       bool_decide (is_reply message = Some "true")
       && JS.truthy (reply_to_mid message);
     image := type_eqb (type message) type_image && JS.truthy (media_url message);
     audio := type_eqb (type message) type_audio && JS.truthy (media_url message);
     video := type_eqb (type message) type_video && JS.truthy (media_url message);
     text_paragraph := JS.truthy (text message);
     tick := if isOwn
             then Some (if JS.truthy (mid message) then CheckCheck else Clock)
             else None |}.

End Bubble.

(** * Verified properties *)

Import Engine Spec.

(** ** Executing commands *)

Section Exec.

Lemma exec_cons (s : State) (c : Cmd) (cs : list Cmd) :
  exec s (c :: cs) = exec (exec1 s c) cs.
Proof. reflexivity. Qed.

Lemma exec1_loading (s : State) (c : Cmd) :
  sets_loading_true c = false -> loading (exec1 s c) = true -> loading s = true.
Proof. destruct c as [| | [|] | | |]; simpl; congruence. Qed.

(** Commands other than [setLoading(true)] cannot raise the loading flag. *)
Lemma exec_loading (cs : list Cmd) :
  forall s : State,
    Forall (fun c => sets_loading_true c = false) cs ->
    loading (exec s cs) = true -> loading s = true.
Proof.
  induction cs as [|c cs IH]; intros s Hall Hl; [exact Hl|].
  inversion Hall as [|? ? Hc Hcs]; subst.
  rewrite exec_cons in Hl.
  eapply exec1_loading; [exact Hc|]. now apply IH.
Qed.

Lemma step_run (s : State) (a : Action) (acts : list Action) :
  run s (a :: acts) = run (step s a) acts.
Proof. reflexivity. Qed.

End Exec.

(** ** Arrays *)

Section Arrays.

Context {A : Type}.

Section Callback.

Variable p : A -> bool.

Lemma findIndex_None (l : list A) :
  JS.findIndex p l = None <-> (forall x, In x l -> p x = false).
Proof.
  induction l as [|x l IH]; simpl.
  - split; [intros _ x [] | reflexivity].
  - destruct (p x) eqn:Hx.
    + split; [discriminate|]. intros H. specialize (H x (or_introl eq_refl)).
      congruence.
    + split.
      * intros H y [<-|Hy]; [exact Hx|].
        destruct (JS.findIndex p l); [discriminate|]. now apply IH.
      * intros H.
        assert (Hl : JS.findIndex p l = None).
        { apply IH. intros y Hy. apply H. now right. }
        now rewrite Hl.
Qed.

(** [findIndex] returns the position of the first entry that satisfies the
    callback. *)
Lemma findIndex_Some (l : list A) (i : nat) :
  JS.findIndex p l = Some i ->
  exists l1 m l2, l = l1 ++ m :: l2 /\ length l1 = i /\ p m = true
                  /\ (forall x, In x l1 -> p x = false).
Proof.
  revert i. induction l as [|x l IH]; simpl; intros i H; [discriminate|].
  destruct (p x) eqn:Hx.
  - injection H as <-. exists [], x, l. repeat split; auto.
    intros y [].
  - destruct (JS.findIndex p l) as [j|]; [|discriminate].
    injection H as <-.
    destruct (IH j eq_refl) as (l1 & m & l2 & -> & <- & Hm & Hl1).
    exists (x :: l1), m, l2. repeat split; auto.
    intros y [<-|Hy]; auto.
Qed.

Lemma findIndex_is_Some (l : list A) :
  (exists m, In m l /\ p m = true) -> exists i, JS.findIndex p l = Some i.
Proof.
  intros (m & Hin & Hm).
  destruct (JS.findIndex p l) as [i|] eqn:E; [eauto|].
  rewrite findIndex_None in E. rewrite (E m Hin) in Hm. discriminate.
Qed.

Lemma filter_sublist (l : list A) :
  sublist (List.filter p l) l.
Proof.
  induction l as [|x l IH]; simpl; [constructor|].
  destruct (p x); now constructor.
Qed.

Lemma filter_all (l : list A) :
  (forall x, In x l -> p x = true) -> List.filter p l = l.
Proof.
  induction l as [|x l IH]; simpl; intros H; [reflexivity|].
  rewrite (H x (or_introl eq_refl)). f_equal. apply IH. auto.
Qed.

Lemma filter_empty_all_false (l : list A) :
  List.filter p l = [] -> forall x, In x l -> p x = false.
Proof.
  induction l as [|y l IH]; simpl; intros H x Hx; [easy|].
  destruct (p y) eqn:Hy; [discriminate|].
  destruct Hx as [<-|Hx]; auto.
Qed.

End Callback.

(** [updated[length l1] = y] on a copy of [l1 ++ x :: l2]. *)
Lemma insert_middle (l1 l2 : list A) (x y : A) :
  <[length l1 := y]> (l1 ++ x :: l2) = l1 ++ y :: l2.
Proof. induction l1 as [|a l1 IH]; simpl; [reflexivity | now rewrite IH]. Qed.

Lemma map_unchanged (f : A -> A) (l : list A) :
  (forall x, In x l -> f x = x) -> List.map f l = l.
Proof.
  induction l as [|x l IH]; simpl; intros H; [reflexivity|].
  rewrite (H x (or_introl eq_refl)). f_equal. apply IH. auto.
Qed.

Lemma map_lookup (f : A -> A) (l : list A) (i : nat) (x : A) :
  l !! i = Some x -> List.map f l !! i = Some (f x).
Proof.
  revert i. induction l as [|y l IH]; intros [|i] H; try discriminate.
  - injection H as ->. reflexivity.
  - simpl. now apply IH.
Qed.

(** An entry that is not the last one of [l ++ [n]] belongs to [l]. *)
Lemma snoc_split_inner (l l1 l2 : list A) (n m : A) :
  l ++ [n] = l1 ++ m :: l2 -> l2 <> [] -> In m l.
Proof.
  revert l. induction l1 as [|b l1 IH]; intros [|a l] H Hne; simpl in H.
  - injection H as _ H. now subst.
  - injection H as -> _. now left.
  - injection H as _ H. now destruct l1.
  - injection H as _ H. right. now apply IH.
Qed.

End Arrays.

(** ** Fetching and selecting *)

Section Fetch.

Lemma fetch_target_truthy (fc : option (option string)) (s : State) (q : string) :
  fetch_target fc s = Some q <-> fetch_id fc s = Some q /\ q <> "".
Proof.
  unfold fetch_target.
  destruct (fetch_id fc s) as [[|c r]|]; simpl; split;
    try congruence; try (intros [? ?]; congruence).
  intros [= <-]. split; [reflexivity|discriminate].
Qed.

(** The only query a fetch issues is the one for its target. *)
Lemma fetch_query_target (fc : option (option string)) (s : State)
  (respond : string -> QueryResult) (q : string) :
  In (query q) (fetchMessages fc respond s) <-> fetch_target fc s = Some q.
Proof.
  unfold fetchMessages, fetchMessages_begin.
  destruct (fetch_target fc s) as [t|]; simpl.
  - split.
    + intros [H|[H|H]]; try discriminate; [congruence|].
      unfold fetchMessages_resume in H.
      destruct (respond t) as [d [e|]|e]; simpl in H;
        destruct H as [H|[H|[]]]; discriminate.
    + intros [= ->]. auto.
  - split; [intros [H|[H|[]]]; discriminate | discriminate].
Qed.

Lemma resume_no_loading_true (r : QueryResult) :
  Forall (fun c => sets_loading_true c = false) (fetchMessages_resume r).
Proof. destruct r as [d [e|]|e]; simpl; repeat constructor. Qed.

Lemma begin_no_loading_true (s : State) :
  Forall (fun c => sets_loading_true c = false) (fetchMessages_begin None s).
Proof.
  unfold fetchMessages_begin.
  destruct (fetch_target None s); repeat constructor.
Qed.

Lemma fetch_no_loading_true (s : State) (respond : string -> QueryResult) :
  Forall (fun c => sets_loading_true c = false) (fetchMessages None respond s).
Proof.
  unfold fetchMessages. destruct (fetch_target None s) eqn:E.
  - apply Forall_app. split;
      [apply begin_no_loading_true | apply resume_no_loading_true].
  - apply begin_no_loading_true.
Qed.

(** C8: selecting the null conversation, and likewise a fetch while no
    conversation is active, ends with an empty message list and
    [loading = false], and issues no query to the remote store; the fetch
    inside the select has no continuation left to run. *)
Theorem null_conversation_clears (s : State) (respond : string -> QueryResult) :
  (messages (step s (Select None)) = []
   /\ loading (step s (Select None)) = false
   /\ (forall q, ~ In (query q) (setContactId None s))
   /\ fetchMessages (Some None) respond s = fetchMessages_begin (Some None) s)
  /\ (contactIdRef s = None ->
      messages (exec s (fetchMessages None respond s)) = []
      /\ loading (exec s (fetchMessages None respond s)) = false
      /\ (forall q, ~ In (query q) (fetchMessages None respond s))).
Proof.
  split.
  - repeat split.
    intros q H. simpl in H. intuition discriminate.
  - intros Hnone.
    assert (Ht : fetch_target None s = None).
    { unfold fetch_target, fetch_id. now rewrite Hnone. }
    unfold fetchMessages, fetchMessages_begin. rewrite Ht.
    repeat split. intros q H. simpl in H. intuition discriminate.
Qed.

(** C6: a background refetch (a call of [fetchMessages] without argument, as
    every recovery trigger makes it) issues no [setLoading(true)]; at no
    point of its execution is the loading flag true unless it was true
    before the refetch began; and of all actions, the only ones that issue
    [setLoading(true)] are selections. *)
Theorem background_fetch_keeps_loading (s : State)
  (respond : string -> QueryResult) :
  Forall (fun c => sets_loading_true c = false) (fetchMessages None respond s)
  /\ (forall done rest : list Cmd,
        fetchMessages None respond s = done ++ rest ->
        loading (exec s done) = true -> loading s = true)
  /\ (forall (a : Action) (s' : State),
        Exists (fun c => sets_loading_true c = true) (commands a s')
        <-> exists id, a = Select id).
Proof.
  split; [apply fetch_no_loading_true|]. split.
  - intros done rest Heq Hl.
    pose proof (fetch_no_loading_true s respond) as Hall.
    rewrite Heq in Hall. apply Forall_app in Hall as [Hdone _].
    eapply exec_loading; eauto.
  - intros a s'. split.
    + intros Hex. destruct a as [id| |r|message now nowIso|payload];
        [eauto | exfalso ..]; simpl in Hex.
      * pose proof (begin_no_loading_true s') as Hall.
        apply Exists_exists in Hex as (c & Hin & Hc).
        rewrite Forall_forall in Hall. apply Hall in Hin. congruence.
      * pose proof (resume_no_loading_true r) as Hall.
        apply Exists_exists in Hex as (c & Hin & Hc).
        rewrite Forall_forall in Hall. apply Hall in Hin. congruence.
      * inversion Hex as [? ? Hc|? ? Hc]; [discriminate|inversion Hc].
      * unfold onChange in Hex.
        destruct (negb (JS.truthy (contactIdRef s'))); [inversion Hex|].
        destruct payload as [m|m|old];
          try destruct (negb (bool_decide (msgContact m = contactIdRef s')));
          inversion Hex as [? ? Hc|? ? Hc]; try discriminate; inversion Hc.
    + intros [id ->]. simpl.
      apply Exists_cons_tl, Exists_cons_tl, Exists_cons_hd. reflexivity.
Qed.

Lemma resume_no_query (r : QueryResult) (q : string) :
  ~ In (query q) (fetchMessages_resume r).
Proof.
  destruct r as [d [e|]|e]; simpl; intros [H|[H|[]]]; discriminate.
Qed.

(** The command list of a fetch that has a target. *)
Lemma fetch_with_target (fc : option (option string)) (s : State)
  (respond : string -> QueryResult) (q : string) :
  fetch_target fc s = Some q ->
  fetchMessages fc respond s
  = setError None :: query q :: fetchMessages_resume (respond q).
Proof.
  intros Ht. unfold fetchMessages, fetchMessages_begin. now rewrite Ht.
Qed.



(** A failure is recorded by the continuation of a fetch and by nothing
    else, whatever is interleaved with it. *)
Lemma error_set_only_by_failed_response (s : State) (a : Action) :
  error (step s a) <> None ->
  error s <> None \/ exists r err, a = Respond r /\ failure r = Some err.
Proof.
  destruct a as [id| |r|message now nowIso|payload]; unfold step; simpl.
  - unfold fetchMessages_begin.
    destruct (fetch_target (Some id) s); simpl; try congruence; auto.
  - unfold fetchMessages_begin.
    destruct (fetch_target None s); simpl; try congruence; auto.
  - destruct r as [d [e|]|e]; simpl; eauto.
  - auto.
  - unfold onChange. destruct (negb (JS.truthy (contactIdRef s))); auto.
    destruct payload as [m|m|old];
      try destruct (negb (bool_decide (msgContact m = contactIdRef s)));
      simpl; auto.
Qed.

(** Any action other than the continuation of a failed query keeps a null
    error value null. *)
Lemma error_stays_null (s : State) (a : Action) :
  error s = None -> Kind.fails a = false -> error (step s a) = None.
Proof.
  intros Hs Ha.
  destruct a as [id| |r|message now nowIso|payload]; unfold step; simpl.
  - unfold fetchMessages_begin.
    now destruct (fetch_target (Some id) s).
  - unfold fetchMessages_begin.
    now destruct (fetch_target None s).
  - destruct r as [d [e|]|e]; simpl in *; try discriminate. exact Hs.
  - exact Hs.
  - unfold onChange. destruct (negb (JS.truthy (contactIdRef s))); [exact Hs|].
    destruct payload as [m|m|old];
      try destruct (negb (bool_decide (msgContact m = contactIdRef s)));
      exact Hs.
Qed.

Lemma error_stays_null_run (acts : list Action) :
  forall s : State,
    error s = None -> Forall (fun a => Kind.fails a = false) acts ->
    error (run s acts) = None.
Proof.
  induction acts as [|a acts IH]; intros s Hs Hall; [exact Hs|].
  inversion Hall as [|? ? Ha Hrest]; subst.
  rewrite step_run. apply IH; [|exact Hrest]. now apply error_stays_null.
Qed.

(** C10, the claim on two overlapping recovery fetches: both issue their
    query for conversation 555, the first query fails and the second
    succeeds.  Each fetch reset the error value before its query, the
    failure is recorded after both resets, and the success path does not
    write the error value: the successful fetch completes, the list is the
    fresh snapshot, and the error value is the failure's message. *)
Lemma overlapping_fetch_keeps_error :
  commands Fetch (Sample.chat555 []) = [setError None; query "555"]
  /\ failure (Resolved (Some [Sample.row 1 "555" "bot" None]) None) = None
  /\ messages (run (Sample.chat555 [])
                 [Fetch; Fetch; Respond (Rejected (ErrorInstance "offline"));
                  Respond (Resolved (Some [Sample.row 1 "555" "bot" None])
                             None)])
     = [Sample.row 1 "555" "bot" None]
  /\ loading (run (Sample.chat555 [])
                 [Fetch; Fetch; Respond (Rejected (ErrorInstance "offline"));
                  Respond (Resolved (Some [Sample.row 1 "555" "bot" None])
                             None)])
     = false
  /\ error (run (Sample.chat555 [])
               [Fetch; Fetch; Respond (Rejected (ErrorInstance "offline"));
                Respond (Resolved (Some [Sample.row 1 "555" "bot" None])
                           None)])
     = Some "offline".
Proof. repeat split. Qed.

(** C10, amended: a fetch for a conversation that is set issues its query;
    whenever a fetch issues its query it has reset the error value to null
    before, so a failure recorded earlier is gone while the fetch is in
    flight; after a fetch whose query succeeded the error value is null
    when nothing ran between its start and its completion, and also when
    anything ran in between except the continuation of another fetch whose
    query failed. *)
Theorem fetch_clears_error_unless_overlapped (fc : option (option string))
  (s : State) (respond : string -> QueryResult) :
  (forall id, fetch_id fc s = Some id -> id <> "" ->
     In (query id) (fetchMessages fc respond s))
  /\ (forall (done : list Cmd) (q : string) (rest : list Cmd),
        fetchMessages fc respond s = done ++ query q :: rest ->
        In (setError None) done /\ error (exec s done) = None)
  /\ (forall q, In (query q) (fetchMessages fc respond s) ->
        failure (respond q) = None ->
        error (exec s (fetchMessages fc respond s)) = None)
  /\ (forall q (between : list Action),
        In (query q) (fetchMessages_begin fc s) ->
        Forall (fun a => Kind.fails a = false) between ->
        failure (respond q) = None ->
        error (exec s (fetchMessages_begin fc s)) = None
        /\ error (run (exec s (fetchMessages_begin fc s))
                    (between ++ [Respond (respond q)])) = None).
Proof.
  split; [|split; [|split]].
  - intros id Hid Hne. apply fetch_query_target.
    apply fetch_target_truthy. auto.
  - intros done q rest Heq.
    assert (Hin : In (query q) (fetchMessages fc respond s)).
    { rewrite Heq. apply in_or_app. right. now left. }
    apply fetch_query_target in Hin.
    rewrite (fetch_with_target _ _ _ _ Hin) in Heq.
    destruct done as [|c [|c' done']]; simpl in Heq.
    + discriminate.
    + injection Heq as <- _. split; [now left | reflexivity].
    + exfalso. injection Heq as _ _ Hres.
      apply (resume_no_query (respond q) q).
      rewrite Hres. apply in_or_app. right. now left.
  - intros q Hin Hok. apply fetch_query_target in Hin.
    rewrite (fetch_with_target _ _ _ _ Hin).
    destruct (respond q) as [d [e|]|e]; simpl in *; congruence.
  - intros q between Hin Hquiet Hok.
    assert (Hbegin : error (exec s (fetchMessages_begin fc s)) = None).
    { unfold fetchMessages_begin in *.
      destruct (fetch_target fc s); [reflexivity|].
      simpl in Hin. intuition discriminate. }
    split; [exact Hbegin|].
    apply error_stays_null_run; [exact Hbegin|].
    apply Forall_app. split; [exact Hquiet|].
    constructor; [|constructor]. simpl. now rewrite Hok.
Qed.

Lemma fetch_clears_error_unless_overlapped_witness :
  error (run {| messages := []; loading := false; error := Some "offline";
                contactIdRef := Some "555" |}
           [Fetch;
            Optimistic (Sample.draft None None) 1714557605000 Sample.now_iso;
            Realtime (INSERT (Sample.row 3 "bot" "555" None));
            Respond (Resolved (Some []) None)])
  = None.
Proof.
  destruct (fetch_clears_error_unless_overlapped None
              {| messages := []; loading := false; error := Some "offline";
                 contactIdRef := Some "555" |}
              (fun _ => Resolved (Some []) None)) as (_ & _ & _ & H).
  refine (proj2 (H "555"
                   [Optimistic (Sample.draft None None) 1714557605000
                      Sample.now_iso;
                    Realtime (INSERT (Sample.row 3 "bot" "555" None))]
                   _ _ eq_refl)).
  - simpl. auto.
  - repeat constructor.
Defined.

End Fetch.

(** ** Realtime change events *)

Section Realtime.

Lemma is_digit_bounds (c : ascii) :
  JS.is_digit c = true <-> (48 <= nat_of_ascii c <= 57)%nat.
Proof.
  unfold JS.is_digit. rewrite andb_true_iff, !Nat.leb_le. reflexivity.
Qed.

Lemma all_digits_Forall (f : string) :
  JS.all_digits f = true
  <-> Forall (fun c => (48 <= nat_of_ascii c <= 57)%nat) (list_ascii_of_string f).
Proof.
  induction f as [|c r IH]; simpl.
  - split; [constructor | reflexivity].
  - rewrite andb_true_iff, is_digit_bounds, IH. split.
    + intros [Hc Hr]. now constructor.
    + intros H. inversion H; subst. now split.
Qed.

(** The regular expression test accepts the pure numeric identifiers. *)
Lemma test_digits_numeric (f : string) :
  JS.test_digits f = true <-> numeric f.
Proof.
  unfold numeric. destruct f as [|c r].
  - simpl. split; [discriminate | intros [H _]; now elim H].
  - unfold JS.test_digits. rewrite all_digits_Forall. split.
    + intros H. split; [discriminate | exact H].
    + now intros [_ H].
Qed.

(** [msgContact] computes the owning conversation the spec describes. *)
Lemma msgContact_owner (m : WhatsAppMessage) (o : option string) :
  owner_of m o <-> msgContact m = o.
Proof.
  unfold msgContact. split.
  - intros [f Hf Hnum | Hnone].
    + rewrite Hf. apply test_digits_numeric in Hnum. now rewrite Hnum.
    + destruct (from m) as [f|]; [|reflexivity].
      destruct (JS.test_digits f) eqn:E; [|reflexivity].
      apply test_digits_numeric in E. now elim (Hnone f).
  - intros <-. destruct (from m) as [f|] eqn:Hf.
    + destruct (JS.test_digits f) eqn:E.
      * apply (owner_sender m f Hf). now apply test_digits_numeric.
      * apply owner_recipient. intros f' Hf' Hnum.
        assert (f' = f) as -> by congruence.
        apply test_digits_numeric in Hnum. congruence.
    + apply owner_recipient. intros f' Hf'. congruence.
Qed.

Lemma truthy_false (c : option string) :
  JS.truthy c = false <-> c = None \/ c = Some "".
Proof.
  destruct c as [[|a r]|]; simpl; split; auto; try discriminate;
    intros [H|H]; discriminate.
Qed.

(** C4, the claim at a DELETE event: the conversation that owns the deleted
    row (777 by the old row's fields, none at all when the event carries
    the key only) is not the active one (555), and yet the event changes
    the state: the entry is removed. *)
Lemma delete_event_not_filtered :
  spec_owner (DELETE (Sample.old_row 1 "777" "555")) = Some "777"
  /\ spec_owner (DELETE (Sample.key_only 1)) = None
  /\ contactIdRef (Sample.chat555 [Sample.row 1 "777" "555" None]) = Some "555"
  /\ messages (step (Sample.chat555 [Sample.row 1 "777" "555" None])
                 (Realtime (DELETE (Sample.old_row 1 "777" "555")))) = []
  /\ messages (step (Sample.chat555 [Sample.row 1 "777" "555" None])
                 (Realtime (DELETE (Sample.key_only 1)))) = []
  /\ step (Sample.chat555 [Sample.row 1 "777" "555" None])
          (Realtime (DELETE (Sample.old_row 1 "777" "555")))
     <> Sample.chat555 [Sample.row 1 "777" "555" None].
Proof.
  repeat split; try reflexivity.
  intros H. apply (f_equal messages) in H. discriminate H.
Qed.

(** C4, amended: an event of any kind leaves the state unchanged while no
    conversation is active (the reference is null or empty); the owning
    conversation of an INSERT or UPDATE is the sender when it is a pure
    numeric identifier and the recipient otherwise, and such an event leaves
    the state unchanged when its owner is not the active conversation; a
    DELETE is not filtered by conversation: while a conversation is active
    it removes by identifier whatever the old row says. *)
Theorem realtime_conversation_filter (s : State) (payload : Payload) :
  (contactIdRef s = None \/ contactIdRef s = Some "" ->
   step s (Realtime payload) = s)
  /\ (forall e o, payload = INSERT e \/ payload = UPDATE e ->
        owner_of e o ->
        msgContact e = o
        /\ (o <> contactIdRef s -> step s (Realtime payload) = s))
  /\ (forall old, payload = DELETE old ->
        JS.truthy (contactIdRef s) = true ->
        messages (step s (Realtime payload))
        = remove_by_id (p_id old) (messages s)).
Proof.
  split; [|split].
  - intros H. apply truthy_false in H.
    unfold step. simpl. unfold onChange. now rewrite H.
  - intros e o Hp Ho. apply msgContact_owner in Ho. split; [exact Ho|].
    intros Hne. unfold step. simpl. unfold onChange.
    destruct (negb (JS.truthy (contactIdRef s))); [reflexivity|].
    destruct Hp as [-> | ->];
      (rewrite bool_decide_eq_false_2; [reflexivity | congruence]).
  - intros old -> Ht. unfold step. simpl. unfold onChange.
    now rewrite Ht.
Qed.

(** *** The three updaters *)

(** An accepted event runs exactly one updater and touches nothing but the
    list. *)
Lemma accepted_step (s : State) (payload : Payload) :
  accepted s payload = true ->
  step s (Realtime payload)
  = exec1 s (updMessages
               match payload with
               | INSERT e => insert_or_replace e
               | UPDATE e => replace_by_id e
               | DELETE old => remove_by_id (p_id old)
               end).
Proof.
  unfold accepted, step. simpl. unfold onChange.
  intros H. apply andb_true_iff in H as [Ht Hc]. rewrite Ht. simpl.
  destruct payload as [e|e|old]; try rewrite Hc; reflexivity.
Qed.

Lemma insert_or_replace_found (e : WhatsAppMessage) (l : list WhatsAppMessage) :
  (exists m, In m l /\ same_message e m = true) ->
  exists l1 m l2,
    l = l1 ++ m :: l2 /\ same_message e m = true
    /\ (forall x, In x l1 -> same_message e x = false)
    /\ insert_or_replace e l = l1 ++ with_sent e :: l2.
Proof.
  intros Hex. destruct (findIndex_is_Some _ _ Hex) as [i Hi].
  destruct (findIndex_Some _ _ _ Hi) as (l1 & m & l2 & -> & <- & Hm & Hl1).
  exists l1, m, l2. repeat split; auto.
  unfold insert_or_replace. rewrite Hi. apply insert_middle.
Qed.

Lemma insert_or_replace_fresh (e : WhatsAppMessage) (l : list WhatsAppMessage) :
  (forall m, In m l -> same_message e m = false) ->
  insert_or_replace e l = l ++ [with_sent e].
Proof.
  intros H. apply findIndex_None in H. unfold insert_or_replace.
  now rewrite H.
Qed.

(** C3: for an event that passes the guards of the handler.  INSERT: when
    some entry matches the message by identifier or by non-empty external
    identifier, the first such entry is replaced in place by the message
    with status sent, and when none matches the message is appended with
    status sent.  UPDATE: the length is kept, every entry with the
    message's identifier becomes the message with status sent, every other
    entry stays where it is, and the list is unchanged when no entry has the
    identifier.  DELETE: what remains is a sublist of the old list, made of
    the entries with another identifier, and the list is unchanged when no
    entry has the identifier.  Loading, error and the active conversation
    are untouched. *)
Theorem accepted_event_updates_list (s : State) (payload : Payload) :
  accepted s payload = true ->
  match payload with
  | INSERT e =>
      ((exists m, In m (messages s) /\ same_message e m = true) ->
       exists l1 m l2,
         messages s = l1 ++ m :: l2 /\ same_message e m = true
         /\ (forall x, In x l1 -> same_message e x = false)
         /\ messages (step s (Realtime payload)) = l1 ++ with_sent e :: l2)
      /\ ((forall m, In m (messages s) -> same_message e m = false) ->
          messages (step s (Realtime payload))
          = messages s ++ [with_sent e])
      /\ status (with_sent e) = Some sent
  | UPDATE e =>
      length (messages (step s (Realtime payload))) = length (messages s)
      /\ (forall (i : nat) m, messages s !! i = Some m ->
            messages (step s (Realtime payload)) !! i
            = Some (if Z.eqb (id m) (id e) then with_sent e else m))
      /\ ((forall m, In m (messages s) -> id m <> id e) ->
          messages (step s (Realtime payload)) = messages s)
      /\ status (with_sent e) = Some sent
  | DELETE old =>
      sublist (messages (step s (Realtime payload))) (messages s)
      /\ (forall m, In m (messages (step s (Realtime payload)))
                    <-> In m (messages s) /\ Some (id m) <> p_id old)
      /\ ((forall m, In m (messages s) -> Some (id m) <> p_id old) ->
          messages (step s (Realtime payload)) = messages s)
  end
  /\ loading (step s (Realtime payload)) = loading s
  /\ error (step s (Realtime payload)) = error s
  /\ contactIdRef (step s (Realtime payload)) = contactIdRef s.
Proof.
  intros Hacc. rewrite (accepted_step _ _ Hacc). simpl.
  split; [|auto]. destruct payload as [e|e|old].
  - split; [apply insert_or_replace_found|].
    split; [apply insert_or_replace_fresh | reflexivity].
  - unfold replace_by_id. split; [apply length_map|].
    split; [|split; [|reflexivity]].
    + intros i m Hi.
      exact (map_lookup
               (fun m' => if Z.eqb (id m') (id e) then with_sent e else m')
               _ _ _ Hi).
    + intros Hno. apply map_unchanged. intros m Hm.
      destruct (Z.eqb_spec (id m) (id e)) as [Heq|]; [|reflexivity].
      now elim (Hno m Hm).
  - unfold remove_by_id. split; [apply filter_sublist|]. split.
    + intros m. rewrite filter_In, negb_true_iff, bool_decide_eq_false.
      reflexivity.
    + intros Hno. apply filter_all. intros m Hm.
      rewrite negb_true_iff, bool_decide_eq_false. auto.
Qed.

Lemma accepted_event_updates_list_witness :
  accepted (Sample.chat555 [Sample.row 1 "555" "bot" None;
                            Sample.row 2 "bot" "555" (Some "wamid.2")])
           (DELETE (Sample.key_only 1)) = true
  /\ sublist
       (messages (step (Sample.chat555 [Sample.row 1 "555" "bot" None;
                                        Sample.row 2 "bot" "555" (Some "wamid.2")])
                    (Realtime (DELETE (Sample.key_only 1)))))
       [Sample.row 1 "555" "bot" None;
        Sample.row 2 "bot" "555" (Some "wamid.2")].
Proof.
  split; [reflexivity|].
  exact (proj1 (proj1 (accepted_event_updates_list
                         (Sample.chat555 [Sample.row 1 "555" "bot" None;
                                          Sample.row 2 "bot" "555" (Some "wamid.2")])
                         (DELETE (Sample.key_only 1)) eq_refl))).
Defined.

End Realtime.

(** ** Optimistic submissions *)

Section Optimistic.

Lemma exec1_updMessages_id (s : State)
  (f : list WhatsAppMessage -> list WhatsAppMessage) :
  f (messages s) = messages s -> exec1 s (updMessages f) = s.
Proof. destruct s as [l ld er c]. simpl. now intros ->. Qed.

Lemma same_message_refl_id (a b : WhatsAppMessage) :
  id a = id b -> same_message a b = true.
Proof.
  intros H. unfold same_message. rewrite H, Z.eqb_refl. reflexivity.
Qed.

Lemma add_if_new_present (n : WhatsAppMessage) (l : list WhatsAppMessage) :
  (exists m, In m l /\ same_message n m = true) -> add_if_new n l = l.
Proof.
  intros H. unfold add_if_new, JS.some.
  apply existsb_exists in H. now rewrite H.
Qed.

Lemma add_if_new_cases (n : WhatsAppMessage) (l : list WhatsAppMessage) :
  add_if_new n l = l \/ add_if_new n l = l ++ [n].
Proof. unfold add_if_new. destruct (JS.some _ _); auto. Qed.

(** C7, the claim at the identifier 0: [message.id || Date.now()] takes a
    supplied 0 for a missing identifier, so two consecutive calls with the
    same supplied identifier 0, one millisecond apart, add two entries. *)
Lemma zero_identifier_added_twice :
  p_id (Sample.draft (Some 0) None) = Some 0
  /\ messages (run (Sample.chat555 [])
                 [Optimistic (Sample.draft (Some 0) None) 1714557605000
                    Sample.now_iso;
                  Optimistic (Sample.draft (Some 0) None) 1714557605001
                    Sample.now_iso])
     = [newMsg_of (Sample.draft (Some 1714557605000) None) 0 Sample.now_iso;
        newMsg_of (Sample.draft (Some 1714557605001) None) 0 Sample.now_iso]
  /\ length (messages (run (Sample.chat555 [])
                 [Optimistic (Sample.draft (Some 0) None) 1714557605000
                    Sample.now_iso;
                  Optimistic (Sample.draft (Some 0) None) 1714557605001
                    Sample.now_iso])) = 2%nat.
Proof. repeat split. Qed.

(** C7, amended: when the synthesised record matches an entry of the list
    by identifier or by non-empty external identifier, the call leaves the
    state as it is; the call returns the synthesised record, of status
    sending, in every case; and two consecutive calls with the same supplied
    identifier other than 0 add at most one entry. *)
Theorem optimistic_duplicate_is_noop (s : State) (message : Partial)
  (now : Z) (nowIso : string) :
  ((exists m, In m (messages s)
              /\ same_message (newMsg_of message now nowIso) m = true) ->
   exec s (snd (addOptimisticMessage message now nowIso)) = s)
  /\ fst (addOptimisticMessage message now nowIso)
     = newMsg_of message now nowIso
  /\ status (newMsg_of message now nowIso) = Some sending
  /\ (forall (k : Z) (message' : Partial) (now' : Z) (nowIso' : string),
        k <> 0 -> p_id message = Some k -> p_id message' = Some k ->
        (length (messages (run s [Optimistic message now nowIso;
                                  Optimistic message' now' nowIso']))
         <= S (length (messages s)))%nat).
Proof.
  split; [|split; [reflexivity|split; [reflexivity|]]].
  - intros H. simpl. apply exec1_updMessages_id. now apply add_if_new_present.
  - intros k message' now' nowIso' Hk Hid Hid'.
    unfold run, step. simpl.
    set (n := newMsg_of message now nowIso).
    set (n' := newMsg_of message' now' nowIso').
    assert (Hsame : same_message n' n = true).
    { apply same_message_refl_id. unfold n, n'. simpl.
      rewrite Hid, Hid'. unfold JS.or_number.
      destruct (Z.eqb_spec k 0); [contradiction | reflexivity]. }
    destruct (add_if_new_cases n (messages s)) as [-> | ->].
    + destruct (add_if_new_cases n' (messages s)) as [-> | ->];
        [lia | rewrite length_app; simpl; lia].
    + rewrite add_if_new_present; [rewrite length_app; simpl; lia|].
      exists n. split; [|exact Hsame]. apply in_or_app. right. now left.
Qed.

(** C2, the claim at two inputs.  First: the stored row of an outgoing
    message carries the numeric sender, so its owning conversation is the
    sender and not the open conversation 555; the INSERT matches the
    optimistic entry by identifier, is ignored, and the entry stays sending.
    Second: the INSERT passes the guards and matches the optimistic entry by
    external identifier, but also an older entry by identifier; the older
    entry is replaced and the optimistic entry stays, still sending, so two
    entries now carry the external identifier. *)
Lemma optimistic_then_insert_not_merged :
  (same_message (Sample.row 7 "15550001111" "555" (Some "wamid.7"))
     (newMsg_of (Sample.draft (Some 7) None) 1714557605000 Sample.now_iso)
   = true
   /\ messages (run (Sample.chat555 [])
                  [Optimistic (Sample.draft (Some 7) None) 1714557605000
                     Sample.now_iso;
                   Realtime (INSERT (Sample.row 7 "15550001111" "555"
                                       (Some "wamid.7")))])
      = [newMsg_of (Sample.draft (Some 7) None) 1714557605000 Sample.now_iso])
  /\ (same_message (Sample.row 1 "bot" "555" (Some "wamid.2"))
        (newMsg_of (Sample.draft (Some 2) (Some "wamid.2")) 1714557605000
           Sample.now_iso) = true
      /\ accepted (Sample.chat555 [Sample.row 1 "bot" "555" (Some "wamid.1")])
           (INSERT (Sample.row 1 "bot" "555" (Some "wamid.2"))) = true
      /\ messages (run (Sample.chat555
                          [Sample.row 1 "bot" "555" (Some "wamid.1")])
                     [Optimistic (Sample.draft (Some 2) (Some "wamid.2"))
                        1714557605000 Sample.now_iso;
                      Realtime (INSERT (Sample.row 1 "bot" "555"
                                          (Some "wamid.2")))])
         = [with_sent (Sample.row 1 "bot" "555" (Some "wamid.2"));
            newMsg_of (Sample.draft (Some 2) (Some "wamid.2")) 1714557605000
              Sample.now_iso]).
Proof. repeat split. Qed.

Lemma matching_none (e : WhatsAppMessage) (l : list WhatsAppMessage) :
  (forall m, In m l -> same_message e m = false) -> matching e l = [].
Proof.
  unfold matching. induction l as [|x l IH]; simpl; intros H; [reflexivity|].
  rewrite (H x (or_introl eq_refl)). apply IH. auto.
Qed.

(** C2, amended: when the INSERT passes the guards of the handler, matches
    the optimistic record by identifier or by non-empty external identifier
    and matches no entry the list held before the submission, then after the
    submission and the event the list is the earlier list followed by the
    event's message with status sent; that is the one entry the message
    matches, and it stands where the submission put the optimistic entry. *)
Theorem optimistic_then_insert (s : State) (message : Partial) (now : Z)
  (nowIso : string) (e : WhatsAppMessage) :
  accepted s (INSERT e) = true ->
  same_message e (newMsg_of message now nowIso) = true ->
  (forall m, In m (messages s) -> same_message e m = false) ->
  messages (run s [Optimistic message now nowIso; Realtime (INSERT e)])
  = messages s ++ [with_sent e]
  /\ status (with_sent e) = Some sent
  /\ matching e (messages (run s [Optimistic message now nowIso;
                                  Realtime (INSERT e)])) = [with_sent e]
  /\ messages (run s [Optimistic message now nowIso; Realtime (INSERT e)])
       !! length (messages s) = Some (with_sent e)
  /\ (In (newMsg_of message now nowIso)
         (messages (step s (Optimistic message now nowIso))) ->
      messages (step s (Optimistic message now nowIso))
        !! length (messages s) = Some (newMsg_of message now nowIso)).
Proof.
  intros Hacc Hsame Hfresh.
  set (n := newMsg_of message now nowIso) in *.
  assert (Hopt : messages (step s (Optimistic message now nowIso))
                 = add_if_new n (messages s)) by reflexivity.
  assert (Hrun : messages (run s [Optimistic message now nowIso;
                                  Realtime (INSERT e)])
                 = messages s ++ [with_sent e]).
  { change (run s [Optimistic message now nowIso; Realtime (INSERT e)])
      with (step (step s (Optimistic message now nowIso)) (Realtime (INSERT e))).
    rewrite accepted_step by exact Hacc.
    change (insert_or_replace e
              (messages (step s (Optimistic message now nowIso)))
            = messages s ++ [with_sent e]).
    rewrite Hopt.
    destruct (add_if_new_cases n (messages s)) as [-> | ->].
    - now apply insert_or_replace_fresh.
    - unfold insert_or_replace.
      destruct (JS.findIndex (same_message e) (messages s ++ [n])) as [i|] eqn:E.
      + apply findIndex_Some in E as (l1 & m & l2 & Hsplit & <- & Hm & Hl1).
        destruct l2 as [|y l2].
        * apply app_inj_tail in Hsplit as [-> ->]. apply insert_middle.
        * exfalso.
          assert (Hin : In m (messages s))
            by (eapply snoc_split_inner; [exact Hsplit | discriminate]).
          rewrite (Hfresh m Hin) in Hm. discriminate.
      + rewrite findIndex_None in E.
        rewrite (E n) in Hsame; [discriminate|].
        apply in_or_app. right. now left. }
  rewrite Hrun. split; [reflexivity|]. split; [reflexivity|]. split; [|split].
  - unfold matching. rewrite List.filter_app.
    fold (matching e (messages s)). rewrite matching_none by exact Hfresh.
    simpl. rewrite same_message_refl_id by reflexivity. reflexivity.
  - rewrite lookup_app_r by lia. now rewrite Nat.sub_diag.
  - rewrite Hopt. intros Hin.
    destruct (add_if_new_cases n (messages s)) as [Heq | Heq]; rewrite Heq in *.
    + rewrite (Hfresh n Hin) in Hsame. discriminate.
    + rewrite lookup_app_r by lia. now rewrite Nat.sub_diag.
Qed.

Lemma optimistic_then_insert_witness :
  messages (run (Sample.chat555 [Sample.row 1 "555" "bot" (Some "wamid.1")])
              [Optimistic (Sample.draft (Some 7) None) 1714557605000
                 Sample.now_iso;
               Realtime (INSERT (Sample.row 7 "bot" "555" (Some "wamid.7")))])
  = [Sample.row 1 "555" "bot" (Some "wamid.1");
     with_sent (Sample.row 7 "bot" "555" (Some "wamid.7"))].
Proof.
  refine (proj1 (optimistic_then_insert
                   (Sample.chat555 [Sample.row 1 "555" "bot" (Some "wamid.1")])
                   (Sample.draft (Some 7) None) 1714557605000 Sample.now_iso
                   (Sample.row 7 "bot" "555" (Some "wamid.7"))
                   eq_refl eq_refl _)).
  intros m [<-|[]]. reflexivity.
Defined.

End Optimistic.

(** ** The list stays duplicate-free *)

Section Invariant.

Create HintDb dupfree.

Lemma duplicate_free_nil : duplicate_free [].
Proof. split; constructor. Qed.

#[local] Hint Resolve duplicate_free_nil : dupfree.

(** The invariant, entry by entry. *)
Lemma duplicate_free_cons (m : WhatsAppMessage) (l : list WhatsAppMessage) :
  duplicate_free (m :: l)
  <-> (forall x, In x l -> id x <> id m)
      /\ (forall x k, In x l -> mid_key m = Some k -> mid_key x <> Some k)
      /\ duplicate_free l.
Proof.
  unfold duplicate_free. rewrite fmap_cons, NoDup_cons, list_elem_of_fmap.
  assert (Hid : ~ (exists x, id m = id x /\ x ∈ l)
                <-> (forall x, In x l -> id x <> id m)).
  { split.
    - intros H x Hx Heq. apply H. exists x. split; [congruence|].
      now apply list_elem_of_In.
    - intros H (x & Heq & Hx). apply list_elem_of_In in Hx.
      now apply (H x Hx). }
  rewrite Hid. simpl omap. destruct (mid_key m) as [k|].
  - rewrite NoDup_cons, list_elem_of_omap. split.
    + intros [[H1 H2] [H3 H4]]. repeat split; auto.
      intros x k' Hx Hk' Hk. apply H3. exists x.
      split; [now apply list_elem_of_In | congruence].
    + intros (H1 & H2 & H3 & H4). repeat split; auto.
      intros (x & Hx & Hk). apply list_elem_of_In in Hx.
      now apply (H2 x k Hx).
  - split.
    + intros [[H1 H2] H3]. repeat split; auto; discriminate.
    + intros (H1 & _ & H3 & H4). auto.
Qed.

Lemma duplicate_free_perm (l l' : list WhatsAppMessage) :
  l ≡ₚ l' -> duplicate_free l -> duplicate_free l'.
Proof.
  intros Hp [H1 H2]. split.
  - now rewrite <- Hp.
  - now rewrite <- Hp.
Qed.

(** What a failed dedup test says about the two messages. *)
Lemma same_message_false (e m : WhatsAppMessage) :
  same_message e m = false ->
  id m <> id e /\ (forall k, mid_key e = Some k -> mid_key m <> Some k).
Proof.
  unfold same_message, mid_key. intros H.
  apply orb_false_iff in H as [Hid Hmid]. apply Z.eqb_neq in Hid.
  split; [exact Hid|]. intros k He Hm.
  destruct (JS.truthy (mid e)); [|discriminate].
  destruct (JS.truthy (mid m)); [|discriminate].
  simpl in Hmid. apply bool_decide_eq_false in Hmid. congruence.
Qed.

(** Putting [n], which carries the keys of [e], next to entries that [e]
    does not match keeps the list duplicate-free. *)
Lemma duplicate_free_add (e n : WhatsAppMessage) (l : list WhatsAppMessage) :
  id n = id e -> mid_key n = mid_key e ->
  (forall x, In x l -> same_message e x = false) ->
  duplicate_free l -> duplicate_free (n :: l).
Proof.
  intros Hid Hmid Hno Hl. apply duplicate_free_cons. repeat split.
  - intros x Hx. rewrite Hid. now apply (same_message_false e x), Hno.
  - intros x k Hx. rewrite Hmid. now apply (same_message_false e x), Hno.
  - apply Hl.
  - apply Hl.
Qed.

Lemma duplicate_free_snoc (e n : WhatsAppMessage) (l : list WhatsAppMessage) :
  id n = id e -> mid_key n = mid_key e ->
  (forall x, In x l -> same_message e x = false) ->
  duplicate_free l -> duplicate_free (l ++ [n]).
Proof.
  intros Hid Hmid Hno Hl.
  apply (duplicate_free_perm (n :: l)); [apply Permutation_cons_append|].
  now apply (duplicate_free_add e).
Qed.

Lemma duplicate_free_replace (e n m : WhatsAppMessage)
  (l1 l2 : list WhatsAppMessage) :
  id n = id e -> mid_key n = mid_key e ->
  (forall x, In x (l1 ++ l2) -> same_message e x = false) ->
  duplicate_free (l1 ++ m :: l2) -> duplicate_free (l1 ++ n :: l2).
Proof.
  intros Hid Hmid Hno Hl.
  apply (duplicate_free_perm (n :: l1 ++ l2)); [apply Permutation_middle|].
  apply (duplicate_free_add e); auto.
  apply (duplicate_free_perm _ (m :: l1 ++ l2)) in Hl;
    [|symmetry; apply Permutation_middle].
  now apply duplicate_free_cons in Hl.
Qed.

Lemma duplicate_free_filter (p : WhatsAppMessage -> bool)
  (l : list WhatsAppMessage) :
  duplicate_free l -> duplicate_free (List.filter p l).
Proof.
  induction l as [|m l IH]; simpl; [auto|]. intros Hl.
  apply duplicate_free_cons in Hl as (H1 & H2 & H3).
  destruct (p m); [|auto]. apply duplicate_free_cons. repeat split.
  - intros x Hx. apply filter_In in Hx as [Hx _]. auto.
  - intros x k Hx. apply filter_In in Hx as [Hx _]. eauto.
  - now apply IH.
  - now apply IH.
Qed.

(** When [e] is taken for at most one entry and [m] is such an entry, [e]
    matches nothing around [m]. *)
Lemma unambiguous_others (e m : WhatsAppMessage) (l1 l2 : list WhatsAppMessage) :
  unambiguous e (l1 ++ m :: l2) -> same_message e m = true ->
  forall x, In x (l1 ++ l2) -> same_message e x = false.
Proof.
  unfold unambiguous, matching. rewrite List.filter_app. simpl.
  intros Hlen Hm. rewrite Hm in Hlen. rewrite length_app in Hlen.
  simpl in Hlen. intros x Hx. apply in_app_or in Hx as [Hx|Hx].
  - apply (filter_empty_all_false _ l1); [|exact Hx].
    destruct (List.filter (same_message e) l1); [reflexivity | simpl in Hlen; lia].
  - apply (filter_empty_all_false _ l2); [|exact Hx].
    destruct (List.filter (same_message e) l2); [reflexivity | simpl in Hlen; lia].
Qed.

Lemma duplicate_free_insert_or_replace (e : WhatsAppMessage)
  (l : list WhatsAppMessage) :
  unambiguous e l -> duplicate_free l -> duplicate_free (insert_or_replace e l).
Proof.
  intros Hun Hl. unfold insert_or_replace.
  destruct (JS.findIndex (same_message e) l) as [i|] eqn:E.
  - apply findIndex_Some in E as (l1 & m & l2 & -> & <- & Hm & _).
    rewrite insert_middle.
    apply (duplicate_free_replace e _ m); auto.
    now apply (unambiguous_others e m).
  - rewrite findIndex_None in E. now apply (duplicate_free_snoc e).
Qed.

Lemma replace_by_id_split (e m : WhatsAppMessage) (l1 l2 : list WhatsAppMessage) :
  id m = id e ->
  (forall x, In x (l1 ++ l2) -> id x <> id e) ->
  replace_by_id e (l1 ++ m :: l2) = l1 ++ with_sent e :: l2.
Proof.
  intros Hm Hno. unfold replace_by_id. rewrite map_app. simpl.
  rewrite Hm, Z.eqb_refl. f_equal; [|f_equal]; apply map_unchanged;
    intros x Hx; (destruct (Z.eqb_spec (id x) (id e)) as [Heq|]; [|reflexivity]);
    elim (Hno x); auto; apply in_or_app; auto.
Qed.

Lemma duplicate_free_replace_by_id (e : WhatsAppMessage)
  (l : list WhatsAppMessage) :
  unambiguous e l -> duplicate_free l -> duplicate_free (replace_by_id e l).
Proof.
  intros Hun Hl.
  destruct (existsb (fun m => Z.eqb (id m) (id e)) l) eqn:E.
  - apply existsb_exists in E as (m & Hin & Hm). apply Z.eqb_eq in Hm.
    apply in_split in Hin as (l1 & l2 & ->).
    assert (Hsame : same_message e m = true)
      by (unfold same_message; rewrite Hm, Z.eqb_refl; reflexivity).
    pose proof (unambiguous_others e m l1 l2 Hun Hsame) as Hno.
    rewrite replace_by_id_split; auto.
    + now apply (duplicate_free_replace e _ m).
    + intros x Hx. now apply (same_message_false e x), Hno.
  - unfold replace_by_id. rewrite map_unchanged; [exact Hl|].
    intros x Hx. destruct (Z.eqb (id x) (id e)) eqn:Hx'; [|reflexivity].
    assert (existsb (fun m => Z.eqb (id m) (id e)) l = true)
      by (apply existsb_exists; eauto).
    congruence.
Qed.

Lemma duplicate_free_remove_by_id (deletedId : option Z)
  (l : list WhatsAppMessage) :
  duplicate_free l -> duplicate_free (remove_by_id deletedId l).
Proof. apply duplicate_free_filter. Qed.

#[local] Hint Resolve duplicate_free_remove_by_id
  duplicate_free_insert_or_replace duplicate_free_replace_by_id : dupfree.

Lemma rejected_step (s : State) (payload : Payload) :
  accepted s payload = false -> step s (Realtime payload) = s.
Proof.
  unfold accepted, step. simpl. unfold onChange. intros H.
  destruct (JS.truthy (contactIdRef s)); simpl in *; [|reflexivity].
  destruct payload as [e|e|old]; try rewrite H; try reflexivity.
  discriminate.
Qed.

(** One admissible action keeps the list duplicate-free. *)
Lemma duplicate_free_step (s : State) (a : Action) :
  admissible s a -> duplicate_free (messages s) ->
  duplicate_free (messages (step s a)).
Proof.
  intros Hadm Hs. destruct a as [c| |r|message now nowIso|payload].
  - unfold step. simpl. unfold fetchMessages_begin.
    destruct (fetch_target (Some c) s); simpl; auto with dupfree.
  - unfold step. simpl. unfold fetchMessages_begin.
    destruct (fetch_target None s); simpl; auto with dupfree.
  - unfold step. destruct r as [[d|] [e|]|e]; simpl; auto with dupfree.
  - unfold step. simpl.
    destruct (add_if_new_cases (newMsg_of message now nowIso) (messages s))
      as [-> | Heq]; [exact Hs|].
    rewrite Heq. apply (duplicate_free_snoc (newMsg_of message now nowIso));
      auto.
    intros x Hx. unfold add_if_new, JS.some in Heq.
    destruct (existsb _ (messages s)) eqn:E.
    + exfalso. apply (f_equal (@length _)) in Heq.
      rewrite length_app in Heq. simpl in Heq. lia.
    + destruct (same_message _ x) eqn:Hsx; [|reflexivity].
      assert (existsb (same_message (newMsg_of message now nowIso))
                (messages s) = true) by (apply existsb_exists; eauto).
      congruence.
  - destruct (accepted s payload) eqn:Hacc;
      [|now rewrite rejected_step].
    rewrite accepted_step by exact Hacc. simpl.
    destruct payload as [e|e|old]; simpl in Hadm; auto with dupfree.
Qed.

Ltac decide_by_computation :=
  apply (bool_decide_unpack _); vm_compute; reflexivity.

(** C1, the claim on two runs from the initial state whose snapshots are
    duplicate-free.  First: the INSERT matches the first entry by external
    identifier; that entry is replaced, and two entries now share the
    identifier 2.  Second: the stored row is appended next to the
    optimistic entry, which it does not match; UPDATE matches by identifier
    only, so once it sets the external identifier on the row two entries
    share it. *)
Lemma duplicates_accumulate :
  (snapshots_duplicate_free Sample.insert_run
   /\ messages (run initial Sample.insert_run)
      = [with_sent (Sample.row 2 "555" "bot" (Some "wamid.1"));
         Sample.row 2 "555" "bot" (Some "wamid.2")]
   /\ ~ NoDup (id <$> messages (run initial Sample.insert_run))
   /\ ~ duplicate_free (messages (run initial Sample.insert_run)))
  /\ (snapshots_duplicate_free Sample.update_run
      /\ messages (run initial Sample.update_run)
         = [newMsg_of (Sample.draft None (Some "wamid.9")) 1714557605000
              Sample.now_iso;
            with_sent (Sample.row 9 "bot" "555" (Some "wamid.9"))]
      /\ ~ NoDup (omap mid_key (messages (run initial Sample.update_run)))
      /\ ~ duplicate_free (messages (run initial Sample.update_run))).
Proof.
  assert (Hids : ~ NoDup (id <$> messages (run initial Sample.insert_run)))
    by decide_by_computation.
  assert (Hmids : ~ NoDup (omap mid_key
                             (messages (run initial Sample.update_run))))
    by decide_by_computation.
  split; (split; [|split; [reflexivity|split]]);
    try assumption; try (intros [H1 H2]; contradiction).
  - intros data [H|[H|[H|[]]]]; try discriminate.
    injection H as <-. split; decide_by_computation.
  - intros data [H|[H|[H|[H|[H|[]]]]]]; try discriminate.
    injection H as <-. apply duplicate_free_nil.
Qed.

(** C1, amended: from a duplicate-free list, every run of selections,
    fetches, snapshot responses, optimistic submissions and realtime events
    ends in a duplicate-free list (at most one entry per identifier and per
    non-empty external identifier), provided each snapshot is duplicate-free
    and each INSERT or UPDATE that passes the guards of the handler matches
    at most one entry of the list it is applied to. *)
Theorem duplicate_free_preserved (acts : list Action) (s : State) :
  duplicate_free (messages s) ->
  admissible_run s acts ->
  duplicate_free (messages (run s acts)).
Proof.
  revert s. induction acts as [|a acts IH]; intros s Hs Hadm; [exact Hs|].
  destruct Hadm as [Ha Hrest]. rewrite step_run.
  apply IH; [|exact Hrest]. now apply duplicate_free_step.
Qed.

Lemma duplicate_free_preserved_witness :
  duplicate_free
    (messages (run initial
       [Select (Some "555");
        Respond (Resolved (Some [Sample.row 1 "555" "bot" (Some "wamid.1");
                                 Sample.row 2 "555" "bot" (Some "wamid.2")])
                   None);
        Optimistic (Sample.draft None (Some "wamid.3")) 1714557605000
          Sample.now_iso;
        Realtime (INSERT (Sample.row 3 "bot" "555" (Some "wamid.3")));
        Realtime (UPDATE (Sample.row 2 "555" "bot" (Some "wamid.2")));
        Realtime (DELETE (Sample.key_only 1));
        Fetch])).
Proof.
  apply duplicate_free_preserved; [apply duplicate_free_nil|].
  simpl. repeat split; try decide_by_computation;
    intros _; unfold unambiguous; vm_compute; lia.
Defined.

End Invariant.

(** ** The push listener *)

Section PushWorker.

Import Push.

Lemma get_not_null (v : JSON) (k : string) :
  v <> JNull -> exists x, get v k = Some x.
Proof. destruct v; simpl; eauto. intros H. now elim H. Qed.

(** A push without payload, or with a payload that is not JSON, is shown
    with the default title and body. *)
Lemma push_unparsable_shows_defaults (event : PushEvent) :
  data event = None \/ (exists d, data event = Some d /\ json d = None) ->
  exists options,
    onPush event = Shown (Some (JString "New Message")) options
    /\ body options = Some (JString "You have a new message").
Proof.
  intros H.
  assert (Hp : parsed event = defaults).
  { unfold parsed. destruct H as [-> | (d & -> & Hd)]; [reflexivity|].
    now rewrite Hd. }
  unfold onPush. rewrite Hp. simpl. eauto.
Qed.

(** A payload that parses to anything but [null] is shown with the title
    and the body read off it. *)
Lemma push_parsed_shows_payload (event : PushEvent) (d : PushMessageData)
  (v : JSON) :
  data event = Some d -> json d = Some v -> v <> JNull ->
  exists title options,
    onPush event = Shown title options
    /\ get v "title" = Some title
    /\ get v "body" = Some (body options).
Proof.
  intros Hd Hv Hnn.
  assert (Hp : parsed event = v) by (unfold parsed; now rewrite Hd, Hv).
  unfold onPush. rewrite Hp.
  destruct (get_not_null v "body" Hnn) as [b ->].
  destruct (get_not_null v "data" Hnn) as [x ->].
  destruct (get_not_null v "title" Hnn) as [t ->].
  eauto.
Qed.

(** C9: what the listener does with every push event.  Without payload, or
    with one that is not JSON, it shows the default title and body; with a
    payload that parses to a value other than [null] it shows the title and
    body of the payload; with a payload that parses to [null] nothing is
    caught at the parse, reading [data.body] throws, and no notification is
    shown. *)
Theorem push_listener_outcome (event : PushEvent) :
  (data event = None \/ (exists d, data event = Some d /\ json d = None) ->
   exists options,
     onPush event = Shown (Some (JString "New Message")) options
     /\ body options = Some (JString "You have a new message"))
  /\ (forall d v, data event = Some d -> json d = Some v -> v <> JNull ->
        exists title options,
          onPush event = Shown title options
          /\ get v "title" = Some title
          /\ get v "body" = Some (body options))
  /\ (forall d, data event = Some d -> json d = Some JNull ->
        onPush event = Throws).
Proof.
  split; [apply push_unparsable_shows_defaults|].
  split; [apply push_parsed_shows_payload|].
  intros d Hd Hv. unfold onPush, parsed. now rewrite Hd, Hv.
Qed.

(** The listener on the payload [null]. *)
Example push_null_payload :
  onPush {| data := Some {| json := Some JNull |} |} = Throws.
Proof. reflexivity. Qed.

(** The listener on the payload [{"title": "Ada", "body": "hello"}]. *)
Example push_object_payload :
  exists options,
    onPush {| data := Some {| json := Some (JObject [("title", JString "Ada");
                                                     ("body", JString "hello")]) |} |}
    = Shown (Some (JString "Ada")) options
    /\ body options = Some (JString "hello")
    /\ opt_data options = JObject [].
Proof. eexists. repeat split. Qed.

End PushWorker.

(** ** Worked scenarios *)

Section Scenarios.

(** Conversation 555 is selected and the snapshot returns two rows: the
    list shows them and loading is off.  A DELETE for the first row leaves
    the second; an INSERT that matches nothing is appended. *)
Example select_snapshot_delete_insert :
  run initial
    [Select (Some "555");
     Respond (Resolved (Some [Sample.row 1 "555" "bot" (Some "wamid.1");
                              Sample.row 2 "bot" "555" (Some "wamid.2")]) None)]
  = Sample.chat555 [Sample.row 1 "555" "bot" (Some "wamid.1");
                    Sample.row 2 "bot" "555" (Some "wamid.2")]
  /\ messages
       (run (Sample.chat555 [Sample.row 1 "555" "bot" (Some "wamid.1");
                             Sample.row 2 "bot" "555" (Some "wamid.2")])
          [Realtime (DELETE (Sample.key_only 1));
           Realtime (INSERT (Sample.row 3 "555" "bot" (Some "wamid.3")))])
     = [Sample.row 2 "bot" "555" (Some "wamid.2");
        with_sent (Sample.row 3 "555" "bot" (Some "wamid.3"))].
Proof. split; reflexivity. Qed.

(** Selecting shows the spinner until the snapshot arrives; a background
    refetch of the same conversation does not. *)
Example spinner_only_on_select :
  loading (step initial (Select (Some "555"))) = true
  /\ loading (step (Sample.chat555 []) Fetch) = false
  /\ commands Fetch (Sample.chat555 []) = [setError None; query "555"].
Proof. repeat split. Qed.

(** An INSERT that belongs to another conversation is ignored; so is any
    event while no conversation is open. *)
Example foreign_insert_ignored :
  step (Sample.chat555 []) (Realtime (INSERT (Sample.row 4 "777" "bot" None)))
  = Sample.chat555 []
  /\ step initial (Realtime (INSERT (Sample.row 4 "555" "bot" None))) = initial.
Proof. split; reflexivity. Qed.

(** A failure recorded by one fetch is gone once the next fetch has
    succeeded. *)
Example error_cleared_by_next_fetch :
  error (run (Sample.chat555 [])
           [Fetch; Respond (Rejected (ErrorInstance "offline"))])
  = Some "offline"
  /\ error (run (Sample.chat555 [])
              [Fetch; Respond (Rejected (ErrorInstance "offline"));
               Fetch; Respond (Resolved (Some []) None)])
     = None.
Proof. split; reflexivity. Qed.

(** A supplied identifier is kept by the synthesised record, a missing one
    is taken from the clock, and the status is sending. *)
Example optimistic_record :
  id (fst (addOptimisticMessage (Sample.draft (Some 7) None) 1714557605000
             Sample.now_iso)) = 7
  /\ id (fst (addOptimisticMessage (Sample.draft None None) 1714557605000
                Sample.now_iso)) = 1714557605000
  /\ status (fst (addOptimisticMessage (Sample.draft None None) 1714557605000
                    Sample.now_iso)) = Some sending
  /\ created_at (fst (addOptimisticMessage (Sample.draft None None)
                        1714557605000 Sample.now_iso)) = Sample.now_iso.
Proof. repeat split. Qed.

End Scenarios.

(** * Further properties of the engine *)

Section EngineMore.

Lemma findIndex_first {A : Type} (p : A -> bool) (l1 l2 : list A) (m : A) :
  (forall x, In x l1 -> p x = false) -> p m = true ->
  JS.findIndex p (l1 ++ m :: l2) = Some (length l1).
Proof.
  induction l1 as [|x l1 IH]; simpl; intros Hno Hm.
  - now rewrite Hm.
  - rewrite (Hno x (or_introl eq_refl)). rewrite IH; auto.
Qed.

Lemma filter_filter_same {A : Type} (p : A -> bool) (l : list A) :
  List.filter p (List.filter p l) = List.filter p l.
Proof.
  induction l as [|x l IH]; simpl; [reflexivity|].
  destruct (p x) eqn:Hx; simpl; [rewrite Hx; now f_equal | exact IH].
Qed.

Lemma insert_or_replace_twice (e : WhatsAppMessage) (l : list WhatsAppMessage) :
  insert_or_replace e (insert_or_replace e l) = insert_or_replace e l.
Proof.
  assert (Hself : same_message e (with_sent e) = true)
    by (now apply same_message_refl_id).
  destruct (JS.findIndex (same_message e) l) as [i|] eqn:E.
  - apply findIndex_Some in E as (l1 & m & l2 & -> & <- & Hm & Hl1).
    assert (Hr : insert_or_replace e (l1 ++ m :: l2) = l1 ++ with_sent e :: l2).
    { unfold insert_or_replace. rewrite findIndex_first by assumption.
      apply insert_middle. }
    rewrite Hr. unfold insert_or_replace.
    rewrite findIndex_first by assumption. apply insert_middle.
  - rewrite findIndex_None in E.
    rewrite (insert_or_replace_fresh e l E). unfold insert_or_replace.
    rewrite (findIndex_first _ l [] (with_sent e)) by assumption.
    apply insert_middle.
Qed.

Lemma replace_by_id_twice (e : WhatsAppMessage) (l : list WhatsAppMessage) :
  replace_by_id e (replace_by_id e l) = replace_by_id e l.
Proof.
  unfold replace_by_id. rewrite List.map_map. apply map_ext. intros m.
  destruct (Z.eqb (id m) (id e)) eqn:Hm; [|now rewrite Hm].
  simpl. now rewrite Z.eqb_refl.
Qed.

Lemma accepted_contact (s s' : State) (payload : Payload) :
  contactIdRef s' = contactIdRef s -> accepted s' payload = accepted s payload.
Proof. unfold accepted. now intros ->. Qed.

(** X1: A realtime event delivered twice in a row has the effect of one
    delivery. *)
Theorem realtime_event_idempotent (s : State) (payload : Payload) :
  step (step s (Realtime payload)) (Realtime payload)
  = step s (Realtime payload).
Proof.
  destruct (accepted s payload) eqn:Hacc.
  - assert (Hacc' : accepted (step s (Realtime payload)) payload = true).
    { rewrite <- Hacc. apply accepted_contact.
      now rewrite accepted_step by exact Hacc. }
    rewrite (accepted_step _ _ Hacc').
    rewrite (accepted_step _ _ Hacc). simpl. f_equal.
    destruct payload as [e|e|old].
    + apply insert_or_replace_twice.
    + apply replace_by_id_twice.
    + apply filter_filter_same.
  - rewrite (rejected_step _ _ Hacc). apply (rejected_step _ _ Hacc).
Qed.

(** X2: Selecting a conversation whose identifier is not empty forgets the
    state it finds: empty list, spinner on, no error.  Deselecting (the
    identifier is null or empty) empties the list and stops the spinner but
    keeps the error value it finds. *)
Theorem select_forgets_state (s : State) (c : option string) :
  (forall id, c = Some id -> id <> "" ->
     step s (Select c)
     = {| messages := []; loading := true; error := None;
          contactIdRef := c |})
  /\ (c = None \/ c = Some "" ->
      step s (Select c)
      = {| messages := []; loading := false; error := error s;
           contactIdRef := c |}).
Proof.
  split.
  - intros id -> Hne. unfold step. simpl. unfold fetchMessages_begin.
    assert (Ht : fetch_target (Some (Some id)) s = Some id)
      by (apply fetch_target_truthy; auto).
    now rewrite Ht.
  - intros [-> | ->]; reflexivity.
Qed.

(** Whatever happened before, including optimistic submissions, realtime
    events and a switch of conversation, a query response without error
    replaces the whole list by its rows and stops the spinner; the response
    is not compared with the conversation that is active by then. *)
Theorem response_replaces_list (s : State) (acts : list Action)
  (data : option (list WhatsAppMessage)) :
  messages (run s (acts ++ [Respond (Resolved data None)])) = default [] data
  /\ loading (run s (acts ++ [Respond (Resolved data None)])) = false
  /\ contactIdRef (run s (acts ++ [Respond (Resolved data None)]))
     = contactIdRef (run s acts)
  /\ error (run s (acts ++ [Respond (Resolved data None)]))
     = error (run s acts).
Proof.
  unfold run. rewrite fold_left_app. simpl. repeat split.
Qed.

(** X3: An INSERT or UPDATE that passes the guards of the handler is a row the
    snapshot query of the active conversation selects. *)
Theorem accepted_row_in_snapshot (s : State) (c : string) (m : WhatsAppMessage) :
  contactIdRef s = Some c ->
  accepted s (INSERT m) = true \/ accepted s (UPDATE m) = true ->
  Query.selects c m = true.
Proof.
  intros Hc Hacc.
  assert (Hm : msgContact m = Some c).
  { destruct Hacc as [H|H]; unfold accepted in H;
      apply andb_true_iff in H as [_ H];
      apply bool_decide_eq_true in H; congruence. }
  unfold Query.selects, msgContact in *.
  destruct (from m) as [f|].
  - destruct (JS.test_digits f).
    + rewrite Hm. rewrite bool_decide_eq_true_2; reflexivity.
    + rewrite Hm. rewrite (bool_decide_eq_true_2 (Some c = Some c)) by reflexivity.
      apply orb_true_r.
  - rewrite Hm. rewrite (bool_decide_eq_true_2 (Some c = Some c)) by reflexivity.
    apply orb_true_r.
Qed.

Lemma accepted_row_in_snapshot_witness :
  Query.selects "555" (Sample.row 3 "bot" "555" None) = true.
Proof.
  exact (accepted_row_in_snapshot (Sample.chat555 []) "555"
           (Sample.row 3 "bot" "555" None) eq_refl (or_introl eq_refl)).
Defined.

(** X4: The converse fails for a row sent by a numeric party to the active
    conversation: the snapshot query selects it, but its owning conversation
    is the sender, so its INSERT and UPDATE events are ignored. *)
Theorem numeric_sender_row_ignored (s : State) (c f : string)
  (m : WhatsAppMessage) :
  contactIdRef s = Some c ->
  from m = Some f -> numeric f -> f <> c -> to m = Some c ->
  Query.selects c m = true
  /\ step s (Realtime (INSERT m)) = s
  /\ step s (Realtime (UPDATE m)) = s.
Proof.
  intros Hc Hf Hnum Hne Hto.
  assert (Hm : msgContact m = Some f).
  { apply msgContact_owner. now apply (owner_sender m f). }
  split.
  - unfold Query.selects. rewrite Hto.
    rewrite (bool_decide_eq_true_2 (Some c = Some c)) by reflexivity.
    apply orb_true_r.
  - split; apply rejected_step; unfold accepted;
      (rewrite bool_decide_eq_false_2; [apply andb_false_r | congruence]).
Qed.

Lemma numeric_sender_row_ignored_witness :
  Query.selects "555" (Sample.row 5 "777" "555" None) = true
  /\ step (Sample.chat555 []) (Realtime (INSERT (Sample.row 5 "777" "555" None)))
     = Sample.chat555 [].
Proof.
  destruct (numeric_sender_row_ignored (Sample.chat555 []) "555" "777"
              (Sample.row 5 "777" "555" None) eq_refl eq_refl) as (H1 & H2 & _).
  - split; [discriminate|]. repeat constructor; simpl; lia.
  - discriminate.
  - reflexivity.
  - split; [exact H1 | exact H2].
Defined.

(** X5: An UPDATE, accepted or not, leaves the sequence of identifiers of the
    list as it is: it adds, removes and moves no entry. *)
Theorem update_keeps_identifiers (s : State) (e : WhatsAppMessage) :
  List.map id (messages (step s (Realtime (UPDATE e))))
  = List.map id (messages s).
Proof.
  destruct (accepted s (UPDATE e)) eqn:Hacc.
  - rewrite accepted_step by exact Hacc. simpl. unfold replace_by_id.
    rewrite List.map_map. apply map_ext_in. intros m _.
    destruct (Z.eqb_spec (id m) (id e)) as [Heq|]; [|reflexivity].
    simpl. congruence.
  - now rewrite rejected_step.
Qed.

(** X6: The handler of the second variant is the handler of the first behind
    the conversation guards: an event that passes them is applied as the
    first variant applies every event, any other event is dropped. *)
Theorem guarded_naive_handler (s : State) (payload : Payload) :
  step s (Realtime payload)
  = if accepted s payload then exec s (Naive.onChange payload) else s.
Proof.
  destruct (accepted s payload) eqn:Hacc.
  - rewrite accepted_step by exact Hacc. now destruct payload.
  - now apply rejected_step.
Qed.

Lemma select_state (s : State) (id : string) :
  id <> "" ->
  contactIdRef (step s (Select (Some id))) = Some id
  /\ loading (step s (Select (Some id))) = true.
Proof.
  intros Hne. unfold step. simpl. unfold fetchMessages_begin.
  assert (Ht : fetch_target (Some (Some id)) s = Some id)
    by (apply fetch_target_truthy; auto).
  now rewrite Ht.
Qed.

Lemma quiet_step (s : State) (a : Action) (id : string) :
  Kind.settles a = false -> id <> "" ->
  contactIdRef s = Some id -> loading s = true ->
  contactIdRef (step s a) = Some id /\ loading (step s a) = true.
Proof.
  intros Ha Hne Hc Hl.
  destruct a as [c| |r|message now nowIso|payload]; try discriminate.
  - unfold step. simpl. unfold fetchMessages_begin.
    assert (Ht : fetch_target None s = Some id)
      by (apply fetch_target_truthy; auto).
    rewrite Ht. simpl. auto.
  - unfold step. simpl. auto.
  - destruct (accepted s payload) eqn:Hacc.
    + rewrite accepted_step by exact Hacc. simpl. auto.
    + rewrite rejected_step by exact Hacc. auto.
Qed.

(** X7: From the selection of a conversation whose identifier is not empty,
    the spinner stays on through optimistic submissions, realtime events
    and the start of background refetches, until a response or another
    selection comes; the active conversation stays the selected one. *)
Theorem loading_stays_on (s : State) (id : string) (acts : list Action) :
  id <> "" ->
  Forall (fun a => Kind.settles a = false) acts ->
  loading (run (step s (Select (Some id))) acts) = true
  /\ contactIdRef (run (step s (Select (Some id))) acts) = Some id.
Proof.
  intros Hne Hall.
  assert (H0 : contactIdRef (step s (Select (Some id))) = Some id
               /\ loading (step s (Select (Some id))) = true).
  { destruct (select_state s id Hne) as [-> ->]. auto. }
  revert H0. generalize (step s (Select (Some id))) as s0.
  induction Hall as [|a acts Ha Hall IH]; intros s0 [Hc Hl]; [auto|].
  rewrite step_run. apply IH. now apply (quiet_step s0 a id).
Qed.

Lemma loading_stays_on_witness :
  loading (run (step initial (Select (Some "555")))
             [Optimistic (Sample.draft None None) 1714557605000 Sample.now_iso;
              Realtime (INSERT (Sample.row 3 "bot" "555" None));
              Fetch]) = true.
Proof.
  refine (proj1 (loading_stays_on initial "555" _ _ _)).
  - discriminate.
  - repeat constructor.
Defined.

(** X8: No action but a selection changes the active conversation. *)
Theorem only_select_changes_conversation (s : State) (acts : list Action) :
  Forall (fun a => Kind.is_select a = false) acts ->
  contactIdRef (run s acts) = contactIdRef s.
Proof.
  intros Hall. revert s.
  induction Hall as [|a acts Ha Hall IH]; intros s; [reflexivity|].
  rewrite step_run, IH.
  destruct a as [c| |r|message now nowIso|payload]; try discriminate.
  - unfold step. simpl. unfold fetchMessages_begin.
    now destruct (fetch_target None s).
  - unfold step. now destruct r as [d [e|]|e].
  - reflexivity.
  - destruct (accepted s payload) eqn:Hacc.
    + now rewrite accepted_step by exact Hacc.
    + now rewrite rejected_step by exact Hacc.
Qed.

Lemma only_select_changes_conversation_witness :
  contactIdRef (run (Sample.chat555 [])
                  [Fetch; Respond (Rejected OtherValue);
                   Realtime (DELETE (Sample.key_only 1))]) = Some "555".
Proof.
  refine (only_select_changes_conversation (Sample.chat555 []) _ _).
  repeat constructor.
Defined.

Lemma error_set_only_by_failed_response_witness :
  error (Sample.chat555 []) <> None
  \/ exists r err, Respond (Rejected (ErrorInstance "offline")) = Respond r
                   /\ failure r = Some err.
Proof.
  apply (error_set_only_by_failed_response (Sample.chat555 [])
           (Respond (Rejected (ErrorInstance "offline")))).
  discriminate.
Defined.

End EngineMore.

(** * The shared channel and the recovery triggers *)

Section Wiring.

Import Page.

Lemma page_run_snoc (p : Page) (events : list Event) (e : Event) :
  Page.run p (events ++ [e]) = Page.step (Page.run p events) e.
Proof. unfold Page.run. now rewrite fold_left_app. Qed.

Lemma page_run_cons (p : Page) (events : list Event) (e : Event) :
  Page.run p (e :: events) = Page.run (Page.step p e) events.
Proof. reflexivity. Qed.

(** Once a channel exists no event creates another or rebinds it. *)
Lemma channel_kept (events : list Event) :
  forall (p : Page) (owner : nat),
    sharedChannel p = Some owner ->
    channels_created p events = O
    /\ sharedChannel (Page.run p events) = Some owner.
Proof.
  induction events as [|e events IH]; intros p owner Hp; [auto|].
  rewrite page_run_cons. simpl channels_created.
  assert (Hstep : sharedChannel (Page.step p e) = Some owner)
    by (destruct e; simpl; rewrite ?Hp; auto).
  destruct (IH _ _ Hstep) as [-> ->]. split; [|reflexivity].
  unfold creates_channel. rewrite Hp. now destruct e.
Qed.

Lemma channel_from_none (events : list Event) :
  forall p : Page,
    sharedChannel p = None ->
    channels_created p events
    = match first_mount events with Some _ => 1%nat | None => O end
    /\ sharedChannel (Page.run p events) = first_mount events.
Proof.
  induction events as [|e events IH]; intros p Hp; [auto|].
  rewrite page_run_cons. simpl channels_created.
  unfold creates_channel. rewrite Hp.
  destruct e as [i|i|st|payload|vs| |i]; simpl first_mount;
    try (apply IH; exact Hp).
  destruct (channel_kept events (Page.step p (Mount i)) i) as [-> ->];
    [simpl; now rewrite Hp | auto].
Qed.

(** X10: However many providers mount and unmount, at most one channel is ever
    created, exactly one once a provider has mounted; the channel belongs
    to the first instance that mounted, and every change event is handed to
    that instance, mounted or not, and to no other. *)
Theorem one_channel_first_instance (events : list Event) (payload : Payload) :
  (channels_created Page.initial events <= 1)%nat
  /\ (channels_created Page.initial events = 1%nat
      <-> exists i, In (Mount i) events)
  /\ sharedChannel (Page.run Page.initial events) = first_mount events
  /\ calls (Page.run Page.initial events) (Change payload)
     = match first_mount events with
       | Some owner => [(owner, Realtime payload)]
       | None => []
       end.
Proof.
  destruct (channel_from_none events Page.initial eq_refl) as [Hn Hc].
  assert (Hfm : (exists i, In (Mount i) events) <-> first_mount events <> None).
  { clear. induction events as [|e events IH]; simpl.
    - split; [intros [i []] | congruence].
    - destruct e as [i|i|st|payload|vs| |i];
        try (rewrite <- IH; split;
             [intros [j [H|H]]; [discriminate | eauto]
             | intros [j H]; eauto]).
      split; [discriminate | eauto]. }
  rewrite Hn, Hfm. simpl calls. rewrite Hc.
  destruct (first_mount events); repeat split; auto; try lia; try congruence.
Qed.

Lemma fetchRef_last (events : list Event) (p : Page) :
  fetchRef (Page.run p events)
  = match last_mount events with
    | Some i => Some i
    | None => fetchRef p
    end.
Proof.
  unfold last_mount.
  induction events as [|e events IH] using rev_ind; [reflexivity|].
  rewrite page_run_snoc, rev_app_distr. simpl rev. simpl app.
  destruct e; simpl; try exact IH. reflexivity.
Qed.

Lemma first_mount_rev_none (events : list Event) :
  first_mount events = None -> first_mount (rev events) = None.
Proof.
  assert (Hin : forall l, first_mount l = None <-> forall i, ~ In (Mount i) l).
  { clear. induction l as [|e l IH]; simpl.
    - split; auto.
    - destruct e as [i|i|st|payload|vs| |i];
        try (rewrite IH; split;
             [intros H j [Hj|Hj]; [discriminate | now apply (H j)]
             | intros H j Hj; apply (H j); now right]).
      split; [discriminate|]. intros H. exfalso. apply (H i). now left. }
  rewrite !Hin. intros H i Hi. apply (H i). now apply in_rev.
Qed.

(** X11: When the channel reports SUBSCRIBED, the one refetch goes to the
    instance that mounted last, mounted or not; any other status sets off
    nothing. *)
Theorem resubscribe_refetches_last_instance (events : list Event)
  (status : string) :
  calls (Page.run Page.initial events) (Status status)
  = match last_mount events with
    | Some i => if String.eqb status "SUBSCRIBED" then [(i, Fetch)] else []
    | None => []
    end.
Proof.
  destruct (channel_from_none events Page.initial eq_refl) as [_ Hc].
  simpl calls. rewrite Hc, fetchRef_last. simpl fetchRef.
  destruct (first_mount events) as [o|] eqn:Hf.
  - now destruct (last_mount events).
  - unfold last_mount. now rewrite first_mount_rev_none.
Qed.

Lemma split_snoc {A : Type} (pre post es : list A) (x e : A) :
  pre ++ x :: post = es ++ [e] ->
  (post = [] /\ pre = es /\ x = e)
  \/ (exists post', post = post' ++ [e] /\ es = pre ++ x :: post').
Proof.
  destruct post as [|y post] using rev_ind; intros H.
  - left. apply app_inj_tail in H as [-> ->]. auto.
  - right. exists post. clear IHpost.
    change (pre ++ x :: post ++ [y]) with (pre ++ (x :: post) ++ [y]) in H.
    rewrite app_assoc in H. apply app_inj_tail in H as [<- ->]. auto.
Qed.

Lemma mounted_snoc (events : list Event) (e : Event) (i : nat) :
  mounted (events ++ [e]) i
  <-> e = Mount i \/ (mounted events i /\ e <> Unmount i).
Proof.
  unfold mounted. split.
  - intros (pre & post & Heq & Hno). symmetry in Heq.
    apply split_snoc in Heq as [(-> & -> & ->) | (post' & -> & ->)];
      [now left | right].
    split.
    + exists pre, post'. split; [reflexivity|].
      intros Hin. apply Hno, in_or_app. now left.
    + intros ->. apply Hno, in_or_app. right. now left.
  - intros [-> | [(pre & post & -> & Hno) He]].
    + exists events, []. split; [reflexivity | intros []].
    + exists pre, (post ++ [e]). split; [now rewrite <- app_assoc|].
      intros Hin. apply in_app_or in Hin as [Hin | [Hin | []]]; auto.
Qed.

(** The instances whose listeners and timer are registered are those that
    mounted and have not unmounted since. *)
Lemma listening_mounted (events : list Event) (i : nat) :
  In i (listening (Page.run Page.initial events)) <-> mounted events i.
Proof.
  induction events as [|e events IH] using rev_ind.
  - simpl. split; [intros [] | intros (pre & post & H & _)].
    now destruct pre.
  - rewrite page_run_snoc, mounted_snoc, <- IH.
    destruct e as [j|j|st|payload|vs| |j]; simpl;
      try (split; [intros H; right; split; [exact H | discriminate]
                  | intros [H | [H _]]; [discriminate | exact H]]).
    + rewrite in_app_iff. simpl. split.
      * intros [H | [-> | []]]; [right; split; [exact H | discriminate]
                                | now left].
      * intros [[= ->] | [H _]]; auto.
    + rewrite filter_In, negb_true_iff, Nat.eqb_neq. split.
      * intros [H Hne]. right. split; [exact H | congruence].
      * intros [H | [H Hne]]; [discriminate|]. split; [exact H | congruence].
Qed.

(** X12: The online, visible and poll triggers start a refetch in exactly the
    instances that mounted and have not unmounted since; a visibility
    change to anything but visible sets off nothing. *)
Theorem triggers_reach_mounted_instances (events : list Event) (i : nat) :
  (In (i, Fetch) (calls (Page.run Page.initial events) Online)
   <-> mounted events i)
  /\ (In (i, Fetch) (calls (Page.run Page.initial events)
                       (VisibilityChange "visible"))
      <-> mounted events i)
  /\ (calls (Page.run Page.initial events) (Poll i) = [(i, Fetch)]
      <-> mounted events i)
  /\ (~ mounted events i ->
      calls (Page.run Page.initial events) (Poll i) = [])
  /\ (forall visibilityState, visibilityState <> "visible" ->
        calls (Page.run Page.initial events)
          (VisibilityChange visibilityState) = []).
Proof.
  assert (Hmap : forall l : list nat,
             In (i, Fetch) (List.map (fun j => (j, Fetch)) l) <-> In i l).
  { intros l. rewrite in_map_iff. split.
    - intros (j & [= ->] & Hj). exact Hj.
    - intros Hi. now exists i. }
  assert (Hex : List.existsb (Nat.eqb i) (listening (Page.run Page.initial events))
                = true <-> mounted events i).
  { rewrite <- listening_mounted, existsb_exists. split.
    - intros (j & Hj & Heq). apply Nat.eqb_eq in Heq. now subst.
    - intros Hi. exists i. split; [exact Hi | apply Nat.eqb_refl]. }
  repeat split.
  - intros H. now apply listening_mounted, Hmap.
  - intros H. now apply Hmap, listening_mounted.
  - intros H. now apply listening_mounted, Hmap.
  - intros H. now apply Hmap, listening_mounted.
  - simpl calls. intros H. apply Hex.
    destruct (List.existsb _ _); [reflexivity | discriminate].
  - simpl calls. intros H. apply Hex in H. now rewrite H.
  - simpl calls. intros H.
    assert (Hf : List.existsb (Nat.eqb i)
                   (listening (Page.run Page.initial events)) = false).
    { apply not_true_iff_false. intros E. now apply Hex in E. }
    now rewrite Hf.
  - intros vs Hvs. simpl calls.
    destruct (String.eqb_spec vs "visible"); [contradiction | reflexivity].
Qed.

End Wiring.

(** * The notification click listener *)

Section NotificationClick.

Import Click.

Lemma append_cons (c : ascii) (a b : string) :
  (String c a ++ b)%string = String c (a ++ b)%string.
Proof. reflexivity. Qed.

Lemma append_nil (b : string) : ("" ++ b)%string = b.
Proof. reflexivity. Qed.

Lemma prefix_split (sub s : string) :
  String.prefix sub s = true <-> exists rest, s = (sub ++ rest)%string.
Proof.
  revert s. induction sub as [|a sub IH]; intros s.
  - split; [intros _; now exists s | intros _; now destruct s].
  - destruct s as [|b s]; simpl.
    + split; [discriminate | intros [rest H]; discriminate].
    + destruct (ascii_dec a b) as [->|Hne].
      * rewrite IH. split; intros [rest H]; exists rest;
          rewrite append_cons in *; congruence.
      * split; [discriminate|]. intros [rest H].
        rewrite append_cons in H. congruence.
Qed.

Lemma includes_unfold (s sub : string) :
  includes s sub
  = if String.prefix sub s then true
    else match s with
         | EmptyString => false
         | String _ rest => includes rest sub
         end.
Proof. now destruct s. Qed.

(** [includes] finds the substring wherever it occurs. *)
Lemma includes_spec (s sub : string) :
  includes s sub = true
  <-> exists before after, s = (before ++ sub ++ after)%string.
Proof.
  induction s as [|c s IH]; rewrite includes_unfold.
  - destruct (String.prefix sub "") eqn:E.
    + apply prefix_split in E as [rest E]. split; [|reflexivity].
      intros _. now exists "", rest.
    + split; [discriminate|]. intros (before & after & H).
      destruct before; [|discriminate]. rewrite append_nil in H.
      assert (String.prefix sub "" = true)
        by (apply prefix_split; now exists after).
      congruence.
  - destruct (String.prefix sub (String c s)) eqn:E.
    + apply prefix_split in E as [rest E]. split; [|reflexivity].
      intros _. now exists "", rest.
    + rewrite IH. split.
      * intros (before & after & ->). now exists (String c before), after.
      * intros (before & after & H). destruct before as [|c' before].
        -- rewrite append_nil in H.
           assert (String.prefix sub (String c s) = true)
             by (apply prefix_split; now exists after).
           congruence.
        -- rewrite append_cons in H. injection H as _ ->.
           now exists before, after.
Qed.

Lemma test_eligible (origin : string) (client : Client) :
  includes (url client) origin && focus_in_client client = true
  <-> eligible origin client.
Proof.
  unfold eligible. now rewrite andb_true_iff, includes_spec.
Qed.

(** The first element with a property is determined by the list. *)
Lemma first_unique {A : Type} (P : A -> Prop) (l1 : list A) :
  forall (c : A) (l2 l1' : list A) (c' : A) (l2' : list A),
    l1 ++ c :: l2 = l1' ++ c' :: l2' -> P c -> P c' ->
    (forall x, In x l1 -> ~ P x) -> (forall x, In x l1' -> ~ P x) -> c = c'.
Proof.
  induction l1 as [|a l1 IH]; intros c l2 [|a' l1'] c' l2' H Hc Hc' H1 H1';
    simpl in H; injection H as Ha Ht.
  - exact Ha.
  - subst a'. elim (H1' c); [now left | exact Hc].
  - subst a. elim (H1 c'); [now left | exact Hc'].
  - apply (IH c l2 l1' c' l2' Ht Hc Hc').
    + intros x Hx. apply H1. now right.
    + intros x Hx. apply H1'. now right.
Qed.

Lemma choose_cases (origin : string) (clientList : list Client) :
  (exists l1 c l2, clientList = l1 ++ c :: l2 /\ eligible origin c
                   /\ (forall x, In x l1 -> ~ eligible origin x)
                   /\ choose origin clientList = focus c)
  \/ ((forall x, In x clientList -> ~ eligible origin x)
      /\ choose origin clientList = openWindow "/").
Proof.
  induction clientList as [|c l IH]; simpl.
  - right. split; [intros x [] | reflexivity].
  - destruct (includes (url c) origin && focus_in_client c) eqn:E.
    + left. exists [], c, l. apply test_eligible in E.
      split; [reflexivity | split; [exact E | split; [intros x [] | reflexivity]]].
    + assert (Hc : ~ eligible origin c)
        by (rewrite <- test_eligible; congruence).
      destruct IH as [(l1 & c' & l2 & -> & He & Hl1 & Hch) | [Hno Hch]].
      * left. exists (c :: l1), c', l2.
        split; [reflexivity | split; [exact He | split; [|exact Hch]]].
        intros x [<-|Hx]; auto.
      * right. split; [|exact Hch]. intros x [<-|Hx]; auto.
Qed.

(** X13: After closing the notification the listener does one thing: it
    focuses the first client in the list whose URL contains the origin and
    that can be focused, and it opens a window at "/" exactly when there
    is no such client. *)
Theorem notification_click_choice (origin : string) (clientList : list Client) :
  onNotificationClick origin clientList = [close; choose origin clientList]
  /\ (forall c, choose origin clientList = focus c
        <-> exists l1 l2, clientList = l1 ++ c :: l2 /\ eligible origin c
                          /\ (forall x, In x l1 -> ~ eligible origin x))
  /\ (forall path, choose origin clientList = openWindow path
        <-> path = "/" /\ (forall x, In x clientList -> ~ eligible origin x))
  /\ choose origin clientList <> close.
Proof.
  split; [reflexivity|].
  destruct (choose_cases origin clientList)
    as [(l1 & c & l2 & Hl & He & Hl1 & Hch) | [Hno Hch]]; rewrite Hch.
  - split; [|split; [|discriminate]].
    + intros c'. split.
      * intros [= <-]. now exists l1, l2.
      * intros (l1' & l2' & Hl' & He' & Hl1'). f_equal.
        rewrite Hl in Hl'.
        exact (first_unique (eligible origin) _ _ _ _ _ _ Hl' He He' Hl1 Hl1').
    + intros path. split; [discriminate|]. intros [_ Hno].
      elim (Hno c); [|exact He]. rewrite Hl. apply in_or_app. right. now left.
  - split; [|split; [|discriminate]].
    + intros c. split; [discriminate|].
      intros (l1 & l2 & -> & He & _). elim (Hno c); [|exact He].
      apply in_or_app. right. now left.
    + intros path. split; [intros [= <-]; auto | intros [-> _]; reflexivity].
Qed.

End NotificationClick.

(** * Push subscription set-up *)

Section Subscription.

Import PushSetup.

Lemma length_repeat_eq (n : nat) : String.length (repeat_eq n) = n.
Proof. induction n as [|n IH]; simpl; [reflexivity | now rewrite IH]. Qed.

Lemma length_replace_all (a b : ascii) (s : string) :
  String.length (replace_all a b s) = String.length s.
Proof. induction s as [|c s IH]; simpl; [reflexivity | now rewrite IH]. Qed.

Lemma length_append (s t : string) :
  String.length (s ++ t)%string = (String.length s + String.length t)%nat.
Proof.
  induction s as [|c s IH]; [reflexivity|].
  rewrite append_cons. simpl. now rewrite IH.
Qed.

Lemma replace_all_append (a b : ascii) (s t : string) :
  replace_all a b (s ++ t)%string
  = (replace_all a b s ++ replace_all a b t)%string.
Proof.
  induction s as [|c s IH]; [reflexivity|].
  rewrite append_cons. cbn [replace_all]. rewrite IH. now rewrite append_cons.
Qed.

Lemma replace_all_repeat_eq (a b : ascii) (n : nat) :
  a <> "="%char -> replace_all a b (repeat_eq n) = repeat_eq n.
Proof.
  intros Hne. induction n as [|n IH]; [reflexivity|].
  cbn [repeat_eq replace_all]. rewrite IH.
  destruct (Ascii.eqb_spec "="%char a); [congruence | reflexivity].
Qed.

Lemma replace_all_chars (a b : ascii) (s : string) (c : ascii) :
  In c (list_ascii_of_string (replace_all a b s)) ->
  exists c0, In c0 (list_ascii_of_string s)
             /\ c = (if Ascii.eqb c0 a then b else c0).
Proof.
  induction s as [|x s IH]; cbn [replace_all list_ascii_of_string];
    [intros []|].
  intros [<- | H]; [exists x; split; [now left | reflexivity]|].
  destruct (IH H) as (c0 & Hc0 & ->). exists c0. split; [now right | reflexivity].
Qed.

Lemma list_ascii_append (s t : string) :
  list_ascii_of_string (s ++ t)%string
  = list_ascii_of_string s ++ list_ascii_of_string t.
Proof.
  induction s as [|c s IH]; [reflexivity|].
  rewrite append_cons. simpl. now rewrite IH.
Qed.

Lemma repeat_eq_chars (n : nat) (c : ascii) :
  In c (list_ascii_of_string (repeat_eq n)) -> c = "="%char.
Proof. induction n as [|n IH]; simpl; [intros [] | intros [<-|H]; auto]. Qed.

Lemma pad_mod (n : nat) : ((n + (4 - n mod 4) mod 4) mod 4 = 0)%nat.
Proof.
  pose proof (Nat.mod_upper_bound n 4).
  pose proof (Nat.div_mod_eq n 4).
  pose proof (Nat.div_mod_eq (4 - n mod 4) 4).
  pose proof (Nat.mod_upper_bound (4 - n mod 4) 4).
  pose proof (Nat.div_mod_eq (n + (4 - n mod 4) mod 4) 4).
  pose proof (Nat.mod_upper_bound (n + (4 - n mod 4) mod 4) 4).
  lia.
Qed.

Lemma pad_zero (n : nat) : ((4 - n mod 4) mod 4 = 0 <-> n mod 4 = 0)%nat.
Proof.
  pose proof (Nat.mod_upper_bound n 4).
  assert (Hr : (n mod 4 = 0 \/ n mod 4 = 1 \/ n mod 4 = 2 \/ n mod 4 = 3)%nat)
    by lia.
  destruct Hr as [-> | [-> | [-> | ->]]]; simpl; split; auto; discriminate.
Qed.

Lemma pad_le (n : nat) : ((4 - n mod 4) mod 4 <= 3)%nat.
Proof. pose proof (Nat.mod_upper_bound (4 - n mod 4) 4). lia. Qed.

Lemma base64_split (base64String : string) :
  base64 base64String
  = (replace_all "_" "/" (replace_all "-" "+" base64String)
     ++ padding base64String)%string.
Proof.
  unfold base64, padding. rewrite !replace_all_append.
  now rewrite !replace_all_repeat_eq by discriminate.
Qed.

(** X15: The string handed to [atob]: the input, with every [-] turned into
    [+] and every [_] into [/], followed by as many [=] as bring its
    length to a multiple of four; these are at most three, and none when
    the length is a multiple of four already. *)
Theorem atob_input_shape (base64String : string) :
  base64 base64String
  = (replace_all "_" "/" (replace_all "-" "+" base64String)
     ++ padding base64String)%string
  /\ (String.length (base64 base64String) mod 4 = 0)%nat
  /\ (String.length (padding base64String) <= 3)%nat
  /\ (String.length (padding base64String) = 0%nat
      <-> (String.length base64String mod 4 = 0)%nat)
  /\ (forall c, In c (list_ascii_of_string (base64 base64String)) ->
        c <> "-"%char /\ c <> "_"%char).
Proof.
  pose proof (base64_split base64String) as Heq.
  assert (Hpad : String.length (padding base64String)
                 = ((4 - String.length base64String mod 4) mod 4)%nat)
    by apply length_repeat_eq.
  split; [exact Heq|]. split; [|split; [|split]].
  - rewrite Heq, length_append, !length_replace_all, Hpad. apply pad_mod.
  - rewrite Hpad. apply pad_le.
  - rewrite Hpad. apply pad_zero.
  - intros c Hc. unfold base64 in Hc.
    apply replace_all_chars in Hc as (c1 & Hc1 & ->).
    apply replace_all_chars in Hc1 as (c0 & _ & ->).
    destruct (Ascii.eqb_spec c0 "-") as [->|H0]; simpl.
    + split; discriminate.
    + destruct (Ascii.eqb_spec c0 "_") as [->|H1];
        [split; discriminate | auto].
Qed.

Lemma translated_char (c : ascii) :
  is_base64url_char c = true ->
  is_base64_char
    (if Ascii.eqb (if Ascii.eqb c "-" then "+"%char else c) "_"
     then "/"%char
     else if Ascii.eqb c "-" then "+"%char else c) = true.
Proof.
  destruct c as [b0 b1 b2 b3 b4 b5 b6 b7].
  destruct b0, b1, b2, b3, b4, b5, b6, b7; vm_compute; auto.
Qed.

(** X16: For an input over the URL-safe alphabet (letters, digits, [-], [_])
    the string handed to [atob] is over the standard alphabet (letters,
    digits, [+], [/]) and the padding character. *)
Theorem url_safe_input_translated (base64String : string) :
  (forall c, In c (list_ascii_of_string base64String) ->
             is_base64url_char c = true) ->
  forall c, In c (list_ascii_of_string (base64 base64String)) ->
            is_base64_char c = true \/ c = "="%char.
Proof.
  intros Hurl c Hc. rewrite base64_split, list_ascii_append in Hc.
  apply in_app_or in Hc as [Hc | Hc].
  - left. apply replace_all_chars in Hc as (c1 & Hc1 & ->).
    apply replace_all_chars in Hc1 as (c0 & Hc0 & ->).
    apply translated_char. now apply Hurl.
  - right. now apply repeat_eq_chars in Hc.
Qed.

Lemma url_safe_input_translated_witness :
  forallb (fun c => is_base64_char c || Ascii.eqb c "=")
    (list_ascii_of_string (base64 "BEl62i-_Gg")) = true.
Proof.
  apply forallb_forall. intros c Hc.
  destruct (url_safe_input_translated "BEl62i-_Gg") with (c := c) as [H | ->].
  - intros c0 Hc0. simpl in Hc0.
    repeat (destruct Hc0 as [<- | Hc0]; [reflexivity|]). destruct Hc0.
  - exact Hc.
  - now rewrite H.
  - reflexivity.
Defined.

(** X17: The calls of the set-up that leave the page are always an initial
    part of one fixed chain: register the worker, ask for permission, get
    the key, subscribe, post the subscription. *)
Theorem setup_calls_in_order (b : Browser) :
  exists key body,
    outward (initPushNotifications b)
    `prefix_of` [register "/sw-push.js"; requestPermission;
                 fetch_get "/api/push/vapid-key"; subscribe key;
                 fetch_post "/api/push/subscribe" body].
Proof.
  unfold initPushNotifications.
  destruct (negb (serviceWorker_in_navigator b)
            || negb (PushManager_in_window b));
    [exists [], ""; eexists; reflexivity|].
  destruct (negb (registers b)); [exists [], ""; eexists; reflexivity|].
  destruct (negb (String.eqb (permission b) "granted"));
    [exists [], ""; eexists; reflexivity|].
  destruct (vapid b) as [publicKey|]; [|exists [], ""; eexists; reflexivity].
  destruct (negb (JS.truthy publicKey));
    [exists [], ""; eexists; reflexivity|].
  destruct (urlBase64ToUint8Array (atob b) (default "" publicKey)) as [key|];
    [|exists [], ""; eexists; reflexivity].
  destruct (subscribes b key) as [body|];
    [|exists key, ""; eexists; reflexivity].
  exists key, body. destruct (posts b); eexists; reflexivity.
Qed.

Ltac no_post :=
  split;
  [ split;
    [ intros [? H]; simpl in H; intuition discriminate
    | intros (? & ? & ? & ? & ? & ? & ? & ? & ? & ? & ?); exfalso;
      simpl in *; congruence ]
  | split;
    [ split;
      [ intros H; simpl in H; intuition discriminate
      | intros [[? H] _]; simpl in H; intuition discriminate ]
    | eexists; split; [reflexivity | reflexivity] ] ].

(** X18: A subscription is posted to the server exactly when the browser
    supports push, the worker registers, permission is granted, the server
    hands out a non-empty key that [atob] accepts, and the browser
    subscribes.  Success is logged exactly when, in addition, the POST
    resolves.  Whatever happens, the last thing the set-up does is write to
    the console. *)
Theorem subscription_posted_iff (b : Browser) :
  ((exists body, In (fetch_post "/api/push/subscribe" body)
                   (initPushNotifications b))
   <-> serviceWorker_in_navigator b = true
       /\ PushManager_in_window b = true
       /\ registers b = true
       /\ permission b = "granted"
       /\ exists k key body,
            vapid b = Some (Some k) /\ k <> ""
            /\ urlBase64ToUint8Array (atob b) k = Some key
            /\ subscribes b key = Some body)
  /\ (In (console_log "[Push] Subscribed successfully")
         (initPushNotifications b)
      <-> (exists body, In (fetch_post "/api/push/subscribe" body)
                          (initPushNotifications b))
          /\ posts b = true)
  /\ (exists c, last (initPushNotifications b) = Some c
                /\ is_console c = true).
Proof.
  unfold initPushNotifications.
  destruct (serviceWorker_in_navigator b) eqn:Hsw; [|no_post].
  destruct (PushManager_in_window b) eqn:Hpm; [|no_post].
  destruct (registers b) eqn:Hr; [|no_post].
  destruct (String.eqb_spec (permission b) "granted") as [Hp|Hp]; [|no_post].
  destruct (vapid b) as [[[|c k]|]|] eqn:Hv; try no_post.
  destruct (urlBase64ToUint8Array (atob b) (default "" (Some (String c k))))
    as [key|] eqn:Hu; [|no_post].
  destruct (subscribes b key) as [body|] eqn:Hs; [|no_post].
  simpl in Hu. split; [|split].
  - split.
    + intros _. repeat split; auto.
      exists (String c k), key, body. repeat split; auto; discriminate.
    + intros _. exists body. simpl. auto 10.
  - destruct (posts b); simpl; split.
    + intros _. split; [exists body; auto 10 | reflexivity].
    + intros _. auto 10.
    + intros H. intuition discriminate.
    + intros [_ H]. discriminate.
  - destruct (posts b); eexists; split; reflexivity.
Qed.

Ltac unsupported :=
  simpl; split;
  [ split; [intros [H|[]]; discriminate | intros [? ?]; discriminate]
  | split;
    [ split; [intros [H|[]]; discriminate | intros (? & ? & ?); discriminate]
    | intros c [<-|[]]; exact I ] ].

(** X19: Nothing is registered on a browser without service workers or push;
    the permission prompt appears exactly when the browser supports push
    and the worker registered; and no request is sent to the server, and no
    subscription made, unless permission was granted. *)
Theorem permission_gates_requests (b : Browser) :
  (In (register "/sw-push.js") (initPushNotifications b)
   <-> serviceWorker_in_navigator b = true /\ PushManager_in_window b = true)
  /\ (In requestPermission (initPushNotifications b)
      <-> serviceWorker_in_navigator b = true
          /\ PushManager_in_window b = true /\ registers b = true)
  /\ (forall c, In c (initPushNotifications b) ->
        match c with
        | fetch_get _ | subscribe _ | fetch_post _ _ => permission b = "granted"
        | _ => True
        end).
Proof.
  unfold initPushNotifications.
  destruct (serviceWorker_in_navigator b); [|unsupported].
  destruct (PushManager_in_window b); [|unsupported].
  simpl. split; [split; auto|].
  destruct (registers b).
  - simpl. split; [split; auto 10|].
    destruct (String.eqb_spec (permission b) "granted") as [Hp|Hp].
    + intros c Hc. now destruct c.
    + simpl. intros c Hc.
      repeat (destruct Hc as [<-|Hc]; [exact I|]). destruct Hc.
  - simpl. split.
    + split; [|intros (_ & _ & H); discriminate].
      intros [H|[H|[]]]; discriminate.
    + intros c Hc. repeat (destruct Hc as [<-|Hc]; [exact I|]). destruct Hc.
Qed.

End Subscription.

(** * The chat header and the message bubble *)

Section Components.

Import Header Bubble.

Lemma clicks_state (given : bool) (n : nat) :
  forall enabled : bool,
    fst (clicks given n enabled) = xorb enabled (Nat.odd n).
Proof.
  induction n as [|n IH]; intros enabled; simpl.
  - now destruct enabled.
  - destruct (clicks given n (negb enabled)) as [final rest] eqn:E.
    simpl. change final with (fst (final, rest)). rewrite <- E, IH.
    rewrite Nat.odd_succ, <- Nat.negb_odd. now destruct enabled, (Nat.odd n).
Qed.

Lemma clicks_told (n : nat) :
  forall enabled : bool,
    snd (clicks true n enabled)
    = List.map (fun k => xorb enabled (Nat.even k)) (seq 0 n).
Proof.
  induction n as [|n IH]; intros enabled; [reflexivity|].
  simpl clicks.
  destruct (clicks true n (negb enabled)) as [final rest] eqn:E.
  simpl snd. change rest with (snd (final, rest)). rewrite <- E, IH.
  simpl seq. simpl List.map.
  rewrite <- seq_shift, List.map_map.
  rewrite (map_ext (fun k => xorb enabled (Nat.even (S k)))
             (fun k => xorb (negb enabled) (Nat.even k))).
  - now destruct enabled.
  - intros k. rewrite Nat.even_succ, <- Nat.negb_even.
    now destruct enabled, (Nat.even k).
Qed.

(** X20: After [n] clicks the switch is where it started when [n] is even and
    opposite when [n] is odd, whatever the [isEnabled] prop was at mount
    (on when it was missing).  When [onToggle] is given it was told every
    new state in turn, so the last value it heard is the state of the
    switch; when it is not given nothing is told. *)
Theorem header_toggle_reports (isEnabled : option bool) (n : nat) :
  fst (clicks true n (initial_enabled isEnabled))
  = xorb (default true isEnabled) (Nat.odd n)
  /\ fst (clicks false n (initial_enabled isEnabled))
     = xorb (default true isEnabled) (Nat.odd n)
  /\ snd (clicks true n (initial_enabled isEnabled))
     = List.map (fun k => xorb (default true isEnabled) (Nat.even k)) (seq 0 n)
  /\ (n <> O ->
      last (snd (clicks true n (initial_enabled isEnabled)))
      = Some (fst (clicks true n (initial_enabled isEnabled))))
  /\ snd (clicks false n (initial_enabled isEnabled)) = [].
Proof.
  unfold initial_enabled. rewrite !clicks_state, clicks_told.
  repeat split.
  - intros Hn. destruct n as [|n]; [congruence|].
    rewrite seq_S, List.map_app. simpl.
    rewrite last_snoc. f_equal.
    rewrite Nat.odd_succ. reflexivity.
  - generalize (default true isEnabled). induction n as [|n IH]; intros e;
      [reflexivity|].
    simpl. specialize (IH (negb e)).
    destruct (clicks false n (negb e)). simpl in *. exact IH.
Qed.

(** X21: A bubble shows at most one media element, and none without a media
    URL or for a text message; the delivery tick is shown on own messages
    only, and it is the double check exactly when the message carries a
    non-empty external identifier, whatever its status. *)
Theorem bubble_media_and_tick (isOwn : bool) (message : WhatsAppMessage) :
  (Nat.b2n (image (blocks isOwn message))
   + Nat.b2n (audio (blocks isOwn message))
   + Nat.b2n (video (blocks isOwn message)) <= 1)%nat
  /\ (JS.truthy (media_url message) = false \/ type message = type_text ->
      image (blocks isOwn message) = false
      /\ audio (blocks isOwn message) = false
      /\ video (blocks isOwn message) = false)
  /\ (tick (blocks isOwn message) = None <-> isOwn = false)
  /\ (tick (blocks isOwn message) = Some CheckCheck
      <-> isOwn = true /\ JS.truthy (mid message) = true)
  /\ blocks isOwn (with_sent message) = blocks isOwn message.
Proof.
  unfold blocks. simpl.
  destruct (type message) eqn:Ht, (JS.truthy (media_url message)) eqn:Hm,
    isOwn, (JS.truthy (mid message)); simpl;
    repeat split; try reflexivity; try lia; try congruence; try tauto;
    try (intros [H|H]; congruence); try (intros [? ?]; congruence);
    match goal with H : _ \/ _ |- _ => destruct H; congruence end.
Qed.

End Components.

(** * What a shown notification carries *)

Section Notification.

Import Push.

(** X14: Every notification the listener shows carries the same tag with
    [renotify], so a new one replaces the one before and still alerts; its
    one action is [open]; and its data is the payload's [data] when that is
    truthy and an empty object otherwise, never a falsy value. *)
Theorem shown_notification_options (event : PushEvent) (title : Value)
  (options : NotificationOptions) :
  onPush event = Shown title options ->
  tag options = "portal-message"
  /\ renotify options = true
  /\ actions options = [("open", "Open")]
  /\ vibrate options = [200; 100; 200]
  /\ Push.truthy (Some (opt_data options)) = true
  /\ (forall v, get (parsed event) "data" = Some (Some v) ->
        Push.truthy (Some v) = true -> opt_data options = v)
  /\ (forall x, get (parsed event) "data" = Some x ->
        Push.truthy x = false -> opt_data options = JObject []).
Proof.
  unfold onPush.
  destruct (get (parsed event) "body") as [data_body|]; [|discriminate].
  destruct (get (parsed event) "data") as [data_data|]; [|discriminate].
  destruct (get (parsed event) "title") as [data_title|]; [|discriminate].
  intros [= _ <-]. cbn [tag renotify actions vibrate opt_data].
  split; [reflexivity|]. split; [reflexivity|]. split; [reflexivity|].
  split; [reflexivity|]. split; [|split].
  - destruct (Push.truthy data_data) eqn:E; [|reflexivity].
    destruct data_data as [v|]; [exact E | discriminate].
  - intros v [= ->] Hv. now rewrite Hv.
  - intros x [= ->] Hx. now rewrite Hx.
Qed.

Lemma shown_notification_options_witness :
  exists options,
    tag options = "portal-message"
    /\ opt_data options = JObject [("chat", JString "555")].
Proof.
  eexists.
  pose proof (shown_notification_options
                {| data := Some {| json := Some (JObject
                     [("title", JString "Ada"); ("body", JString "hello");
                      ("data", JObject [("chat", JString "555")])]) |} |}
                _ _ eq_refl) as (Ht & _ & _ & _ & _ & Hd & _).
  split; [exact Ht|]. apply Hd; reflexivity.
Defined.

End Notification.
